(** * annota: SAM prompt encoding, decoder invocation and mask post-processing

    A shallow embedding of [scripts/test_sam_decoder.py] and
    [scripts/generate_sam_embeddings.py].

    Python [int] is [Z]; Python [float] is IEEE-754 binary64, embedded as
    [spec_float] with the arithmetic of [SpecFloat] at precision 53 and
    maximal exponent 1024; a NumPy [float32] cell is a [spec_float] that
    went through the binary32 rounding.  Exceptions are values of
    [py_error] threaded through the [result] monad. *)

From stdpp Require Import base option list strings pretty gmap.
From Stdlib Require Import ZArith Lia Ascii.
From Stdlib Require Import Floats.SpecFloat.

Open Scope Z_scope.

(** ** Exceptions *)

Inductive py_error : Type :=
  | ZeroDivisionError
  | OverflowError
  | ValueError
  | IndexError
  | TypeError
  | FileNotFoundError
  | OSError (msg : string)
  | EngineError (msg : string).

Inductive result (A : Type) : Type :=
  | Ok (a : A)
  | Raise (e : py_error).

Arguments Ok {A} a.
Arguments Raise {A} e.

#[global] Instance result_ret : MRet result := fun A a => Ok a.

#[global] Instance result_bind : MBind result := fun A B f m =>
  match m with
  | Ok a => f a
  | Raise e => Raise e
  end.

Definition is_ok {A} (r : result A) : bool :=
  match r with Ok _ => true | Raise _ => false end.

(** ** Python floats (binary64) and NumPy float32 cells *)

Module F64.

Definition prec : Z := 53.
Definition emax : Z := 1024.

Definition zero : spec_float := S754_zero false.

(** Nearest-even rounding of an integer, as [PyLong_AsDouble] does. *)
Definition of_Z (z : Z) : spec_float := binary_normalize prec emax z 0 false.

Definition mul : spec_float -> spec_float -> spec_float := SFmul prec emax.
Definition div : spec_float -> spec_float -> spec_float := SFdiv prec emax.

(** [a > b] on floats; false as soon as one side is a NaN. *)
Definition gtb (a b : spec_float) : bool := SFltb b a.

Definition is_inf (x : spec_float) : bool :=
  match x with S754_infinity _ => true | _ => false end.

Definition is_zero (x : spec_float) : bool :=
  match x with S754_zero _ => true | _ => false end.

End F64.

Module F32.

Definition prec : Z := 24.
Definition emax : Z := 128.

(** The cast NumPy applies when a Python float is stored in a
    [float32] array: rounding to nearest-even in binary32. *)
Definition of_f64 (x : spec_float) : spec_float :=
  match x with
  | S754_finite s m e => binary_round prec emax s m e
  | _ => x
  end.

End F32.

(** [float(n)] for a Python int: [OverflowError] when the rounded value
    does not fit binary64. *)
Definition float_of_int (n : Z) : result spec_float :=
  let f := F64.of_Z n in
  if F64.is_inf f then Raise OverflowError else Ok f.

(** The ints [float(n)] accepts. *)
Definition int_fits_float (n : Z) : bool := negb (F64.is_inf (F64.of_Z n)).

(** [a / b] with [a] a float and [b] an int ([float.__truediv__]): the int
    is converted first, then a zero divisor raises. *)
Definition float_div_int (a : spec_float) (b : Z) : result spec_float :=
  fb ← float_of_int b;
  if F64.is_zero fb then Raise ZeroDivisionError else Ok (F64.div a fb).

(** [a / b] on two Python ints ([int.__truediv__]): the correctly rounded
    quotient; a zero divisor and a quotient beyond binary64 raise. *)
Definition int_truediv (a b : Z) : result spec_float :=
  if b =? 0 then Raise ZeroDivisionError
  else
    let sign := xorb (a <? 0) (b <? 0) in
    if a =? 0 then Ok (S754_zero sign)
    else
      let '(q, e, l) :=
        SFdiv_core_binary F64.prec F64.emax (Z.abs a) 0 (Z.abs b) 0 in
      let f := binary_round_aux F64.prec F64.emax sign q e l in
      if F64.is_inf f then Raise OverflowError else Ok f.

(** The integer a float denotes, when it denotes one. *)
Definition exact_int (x : spec_float) : option Z :=
  match x with
  | S754_zero _ => Some 0
  | S754_finite s m e =>
      let v := if s then Z.neg m else Z.pos m in
      if 0 <=? e then Some (v * 2 ^ e)
      else if Z.pos m mod 2 ^ (- e) =? 0 then Some (v / 2 ^ (- e))
      else None
  | _ => None
  end.

(** ** NumPy arrays: a shape and a row-major buffer *)

Record ndarray (A : Type) : Type := mk_ndarray {
  nd_shape : list nat;
  nd_data : list A
}.

Arguments mk_ndarray {A} nd_shape nd_data.
Arguments nd_shape {A} _.
Arguments nd_data {A} _.

Definition shape_size (shape : list nat) : nat := foldr Nat.mul 1%nat shape.

Definition nd_wf {A} (a : ndarray A) : Prop :=
  length (nd_data a) = shape_size (nd_shape a).

(** [np.zeros(shape, dtype=np.float32)] *)
Definition np_zeros (shape : list nat) : ndarray spec_float :=
  mk_ndarray shape (replicate (shape_size shape) F64.zero).

Definition nd_map {A B} (f : A -> B) (a : ndarray A) : ndarray B :=
  mk_ndarray (nd_shape a) (f <$> nd_data a).

(** Offset of a full index tuple in the row-major buffer; [None] when the
    tuple has the wrong arity or an index is out of bounds. *)
Fixpoint ravel (shape idx : list nat) : option nat :=
  match shape, idx with
  | [], [] => Some 0%nat
  | d :: shape', i :: idx' =>
      if decide (i < d)%nat
      then off ← ravel shape' idx'; Some (i * shape_size shape' + off)%nat
      else None
  | _, _ => None
  end.

(** [a[i0, ..., ik] = v] on a float32 array: the value is cast on store. *)
Definition nd_setitem (a : ndarray spec_float) (idx : list nat) (v : spec_float)
  : result (ndarray spec_float) :=
  match ravel (nd_shape a) idx with
  | Some off => Ok (mk_ndarray (nd_shape a) (<[off := F32.of_f64 v]> (nd_data a)))
  | None => Raise IndexError
  end.

(** Reading the cell [a[i0, ..., ik]]. *)
Definition nd_lookup {A} (a : ndarray A) (idx : list nat) : option A :=
  off ← ravel (nd_shape a) idx; nd_data a !! off.

(** [a[i0, ..., ik]] with fewer indices than dimensions: the sub-array. *)
Definition nd_getitem {A} (a : ndarray A) (idx : list nat) : result (ndarray A) :=
  let lead := take (length idx) (nd_shape a) in
  let rest := drop (length idx) (nd_shape a) in
  match ravel lead idx with
  | Some off =>
      Ok (mk_ndarray rest
            (take (shape_size rest) (drop (off * shape_size rest) (nd_data a))))
  | None => Raise IndexError
  end.

(** * scripts/test_sam_decoder.py *)

Module Decoder.

(** A parsed click, the tuple [(x, y, label)]. *)
Abbreviation click := (spec_float * spec_float * Z)%type.

(** *** String helpers behind [":" in s], [s.split(":", 1)], [xy.split(",")] *)

Fixpoint split_first (c : ascii) (s : string) : option (string * string) :=
  match s with
  | EmptyString => None
  | String a s' =>
      if decide (a = c) then Some (EmptyString, s')
      else '(l, r) ← split_first c s'; Some (String a l, r)
  end.

Fixpoint split_all (c : ascii) (s : string) : list string :=
  match s with
  | EmptyString => [EmptyString]
  | String a s' =>
      if decide (a = c) then EmptyString :: split_all c s'
      else
        match split_all c s' with
        | p :: ps => String a p :: ps
        | [] => [String a EmptyString]
        end
  end.

Section ParseClick.

(** Python's [int(str)] and [float(str)]; both raise on malformed text. *)
Variable int_of_str : string -> result Z.
Variable float_of_str : string -> result spec_float.

Definition parse_click (s : string) : result click :=
  '(xy, label) ←
    match split_first ":"%char s with
    | Some (xy, lbl) => label ← int_of_str lbl; Ok (xy, label)
    | None => Ok (s, 1)
    end;
  match split_all ","%char xy with
  | [x_str; y_str] =>
      x ← float_of_str x_str;
      y ← float_of_str y_str;
      Ok (x, y, label)
  | _ => Raise ValueError
  end.

End ParseClick.

(** *** Prompt normalizer: point tensors with uniform scaling *)

(** The literal [1024.0]. *)
Definition target_long_side : spec_float :=
  Eval vm_compute in F64.of_Z 1024.

(** The literal [-1.0]. *)
Definition minus_one : spec_float := Eval vm_compute in F64.of_Z (-1).

(** [sam_scale = 1024.0 / max(args.image_width, args.image_height)] *)
Definition sam_scale (image_width image_height : Z) : result spec_float :=
  float_div_int target_long_side (Z.max image_width image_height).

(** [if not clicks: clicks = [(w/2, h/2, 1)]] *)
Definition default_clicks (image_width image_height : Z) (clicks : list click)
  : result (list click) :=
  match clicks with
  | [] =>
      cx ← int_truediv image_width 2;
      cy ← int_truediv image_height 2;
      Ok [(cx, cy, 1)]
  | _ => Ok clicks
  end.

(** The body of [for i, (x, y, lbl) in enumerate(clicks)], from index [i]. *)
Fixpoint fill_points (scale : spec_float) (i : nat) (clicks : list click)
    (point_coords point_labels : ndarray spec_float)
  : result (ndarray spec_float * ndarray spec_float) :=
  match clicks with
  | [] => Ok (point_coords, point_labels)
  | (x, y, lbl) :: rest =>
      pc ← nd_setitem point_coords [0; i; 0]%nat (F64.mul x scale);
      pc ← nd_setitem pc [0; i; 1]%nat (F64.mul y scale);
      fl ← float_of_int lbl;
      pl ← nd_setitem point_labels [0; i]%nat fl;
      fill_points scale (S i) rest pc pl
  end.

Definition point_tensors (scale : spec_float) (clicks : list click)
  : result (ndarray spec_float * ndarray spec_float) :=
  let point_coords := np_zeros [1; length clicks + 1; 2]%nat in
  let point_labels := np_zeros [1; length clicks + 1]%nat in
  '(pc, pl) ← fill_points scale 0 clicks point_coords point_labels;
  pl ← nd_setitem pl [0; length clicks]%nat minus_one;
  Ok (pc, pl).

(** Lines 52-64 on already parsed clicks. *)
Definition normalize (clicks : list click) (image_width image_height : Z)
  : result (ndarray spec_float * ndarray spec_float) :=
  scale ← sam_scale image_width image_height;
  clicks ← default_clicks image_width image_height clicks;
  point_tensors scale clicks.

(** The cells a click contributes, used to state what [normalize] builds. *)
Definition scale_of (image_width image_height : Z) : spec_float :=
  F64.div target_long_side (F64.of_Z (Z.max image_width image_height)).

Definition coords_row (scale : spec_float) (c : click) : list spec_float :=
  let '(x, y, _) := c in
  [F32.of_f64 (F64.mul x scale); F32.of_f64 (F64.mul y scale)].

Definition label_cell (c : click) : spec_float :=
  let '(_, _, lbl) := c in F32.of_f64 (F64.of_Z lbl).

(** The label cell of the padding row, [-1.0] as stored. *)
Definition padding_label : spec_float := F32.of_f64 minus_one.

Definition label_fits (c : click) : Prop :=
  let '(_, _, lbl) := c in int_fits_float lbl = true.

(** *** Embedding store: [np.load(path).astype(np.float32)] *)

(** What a [.npy] file can hold, by element type. *)
Inductive npy_array : Type :=
  | NpyFloat32 (a : ndarray spec_float)
  | NpyFloat64 (a : ndarray spec_float)
  | NpyInt64 (a : ndarray Z).

Inductive file : Type :=
  | NpyFile (a : npy_array)
  | OtherFile (content : string).

Definition shape_of (a : npy_array) : list nat :=
  match a with
  | NpyFloat32 a | NpyFloat64 a => nd_shape a
  | NpyInt64 a => nd_shape a
  end.

Definition np_load (fs : gmap string file) (path : string) : result npy_array :=
  match fs !! path with
  | None => Raise FileNotFoundError
  | Some (NpyFile a) => Ok a
  | Some (OtherFile _) => Raise ValueError
  end.

(** An integer cell cast to float32. *)
Definition f32_of_int (n : Z) : spec_float :=
  binary_normalize F32.prec F32.emax n 0 false.

(** [.astype(np.float32)]: an element-wise cast, the shape is kept. *)
Definition astype_float32 (a : npy_array) : ndarray spec_float :=
  match a with
  | NpyFloat32 a => a
  | NpyFloat64 a => nd_map F32.of_f64 a
  | NpyInt64 a => nd_map f32_of_int a
  end.

Definition load_embedding (fs : gmap string file) (path : string)
  : result (ndarray spec_float) :=
  a ← np_load fs path;
  Ok (astype_float32 a).

(** *** Decoder input set *)

Definition tensor : Type := ndarray spec_float.

Definition build_feeds (emb point_coords point_labels : tensor)
    (image_width image_height : Z) : gmap string tensor :=
  let mask_input := np_zeros [1; 1; 256; 256]%nat in
  let has_mask_input := mk_ndarray [1%nat] [f32_of_int 0] in
  let orig_im_size :=
    mk_ndarray [2%nat] [f32_of_int image_height; f32_of_int image_width] in
  <["image_embeddings" := emb]>
    (<["point_coords" := point_coords]>
      (<["point_labels" := point_labels]>
        (<["mask_input" := mask_input]>
          (<["has_mask_input" := has_mask_input]>
            (<["orig_im_size" := orig_im_size]> ∅))))).

(** *** Decoder invocation: [sess.run(output_names, feeds)] *)

(** An inference session: the graph's output names in graph order, and
    the evaluation of the graph, which yields one tensor per output or
    fails with the engine's error. *)
Record session : Type := mk_session {
  sess_output_names : list string;
  sess_eval : gmap string tensor -> result (list tensor)
}.

Definition list_index {A} (l : list A) (i : nat) : result A :=
  match l !! i with
  | Some x => Ok x
  | None => Raise IndexError
  end.

Definition output_position (sess : session) (name : string) : result nat :=
  match list_find (fun n => n = name) (sess_output_names sess) with
  | Some (i, _) => Ok i
  | None => Raise (EngineError "Invalid output name")
  end.

(** [output_names = None] asks for every output, in graph order. *)
Definition sess_run (sess : session) (output_names : option (list string))
    (feeds : gmap string tensor) : result (list tensor) :=
  match output_names with
  | None => sess_eval sess feeds
  | Some names =>
      positions ← mapM (output_position sess) names;
      outs ← sess_eval sess feeds;
      mapM (list_index outs) positions
  end.

(** Lines 79-85. *)
Definition resolve_masks (sess : session) (feeds : gmap string tensor)
  : result tensor :=
  out ← sess_run sess None feeds;
  if decide (1 <= length out)%nat
  then list_index out 0
  else
    named ← sess_run sess (Some ["masks"]) feeds;
    list_index named 0.

(** The resolution order the specification words: the named output
    first, positional index 0 as the fallback.  Kept next to
    [resolve_masks] to compare the two. *)
Definition resolve_masks_named_first (sess : session) (feeds : gmap string tensor)
  : result tensor :=
  match sess_run sess (Some ["masks"]) feeds with
  | Ok named => list_index named 0
  | Raise _ =>
      out ← sess_run sess None feeds;
      list_index out 0
  end.

(** *** Mask post-processing *)

(** One cell of [(mask > 0.0).astype(np.uint8) * 255], in uint8 arithmetic. *)
Definition threshold (logit : spec_float) : Z :=
  (Z.b2z (F64.gtb logit F64.zero) * 255) `mod` 256.

Definition binarize (mask : tensor) : ndarray Z := nd_map threshold mask.

(** The floats above zero: the positive finite ones and [+inf]. *)
Definition is_positive (x : spec_float) : bool :=
  match x with
  | S754_infinity false | S754_finite false _ _ => true
  | _ => false
  end.

(** The float32 cell holding the decimal [n / d]. *)
Definition f32_of_ratio (n d : Z) : spec_float :=
  F32.of_f64 (F64.div (F64.of_Z n) (F64.of_Z d)).

(** A single-channel 8-bit raster: [size = (width, height)], rows first. *)
Record image : Type := mk_image {
  im_width : nat;
  im_height : nat;
  im_pixels : list Z
}.

(** The buffer holds one cell per pixel. *)
Definition image_wf (im : image) : Prop :=
  length (im_pixels im) = (im_height im * im_width im)%nat.

(** [Image.fromarray] on a two-dimensional uint8 array [(rows, cols)],
    the only rank [masks[0, 0]] of a rank-4 output can have. *)
Definition fromarray (a : ndarray Z) : result image :=
  match nd_shape a with
  | [rows; cols] => Ok (mk_image cols rows (nd_data a))
  | _ => Raise TypeError
  end.

(** Modelled from the spec: Pillow's [Image.resize(size, Image.NEAREST)]
    is not part of this repository.  Nearest-neighbour resampling takes
    for the output pixel [i] the source pixel under its centre,
    [floor((i + 1/2) * src / dst)]. *)
Definition nearest_src (i src dst : nat) : nat :=
  ((2 * i + 1) * src / (2 * dst))%nat.

Definition pixel (im : image) (x y : nat) : Z :=
  nth (y * im_width im + x)%nat (im_pixels im) 0.

(** The buffer of a [w] by [h] raster whose pixel [(x, y)] is [f x y]. *)
Definition raster (w h : nat) (f : nat -> nat -> Z) : list Z :=
  flat_map (fun y => map (fun x => f x y) (seq 0 w)) (seq 0 h).

(** Modelled from the spec: Pillow's [Image.resize(size, Image.NEAREST)],
    which refuses a size below one pixel. *)
Definition resize_nearest (im : image) (size : Z * Z) : result image :=
  let '(w, h) := size in
  if (w <? 1) || (h <? 1) then Raise ValueError
  else
    let w' := Z.to_nat w in
    let h' := Z.to_nat h in
    Ok (mk_image w' h'
          (raster w' h'
             (fun x y => pixel im (nearest_src x (im_width im) w')
                                  (nearest_src y (im_height im) h')))).

(** Lines 87-98; the pair holds the rasters saved as [.png] and
    [.full.png]. *)
Definition postprocess (masks : tensor) (image_width image_height : Z)
  : result (image * image) :=
  mask ← nd_getitem masks [0; 0]%nat;
  let binary := binarize mask in
  native ← fromarray binary;
  resized_from ← fromarray binary;
  full ← resize_nearest resized_from (image_width, image_height);
  Ok (native, full).

(** *** The script *)

Record arguments : Type := mk_arguments {
  arg_embedding : string;
  arg_image_width : Z;
  arg_image_height : Z;
  arg_click : list string
}.

Section Main.

Variable int_of_str : string -> result Z.
Variable float_of_str : string -> result spec_float.

(** Lines 51-64 as [main] runs them, click strings included. *)
Definition prepare_points (args : arguments)
  : result (ndarray spec_float * ndarray spec_float) :=
  scale ← sam_scale (arg_image_width args) (arg_image_height args);
  clicks ← mapM (parse_click int_of_str float_of_str) (arg_click args);
  clicks ← default_clicks (arg_image_width args) (arg_image_height args) clicks;
  point_tensors scale clicks.

Definition main (sess : session) (fs : gmap string file) (args : arguments)
  : result (image * image) :=
  emb ← load_embedding fs (arg_embedding args);
  '(point_coords, point_labels) ← prepare_points args;
  let feeds :=
    build_feeds emb point_coords point_labels
      (arg_image_width args) (arg_image_height args) in
  masks ← resolve_masks sess feeds;
  postprocess masks (arg_image_width args) (arg_image_height args).

End Main.

End Decoder.

(** * scripts/generate_sam_embeddings.py *)

Module Embeddings.

(** An image path with the [pathlib] attributes the script reads. *)
Record image_path : Type := mk_image_path {
  ip_path : string;
  ip_name : string;
  ip_stem : string
}.

(** A decoded image, [shape = (height, width, 3)]. *)
Record rgb_image : Type := mk_rgb_image {
  rgb_height : nat;
  rgb_width : nat;
  rgb_data : list Z
}.

Record metadata : Type := mk_metadata {
  meta_image : string;
  meta_width : Z;
  meta_height : Z;
  meta_sha256 : string;
  meta_model_type : string;
  meta_checkpoint : string
}.

Inductive file : Type :=
  | NpyFile (a : ndarray spec_float)
  | JsonFile (m : metadata).

(** The collaborators of [main]: image decoding, the encoder, reading
    the image bytes, the hash, and whether a path can be written
    ([None]: the write succeeds). *)
Record world : Type := mk_world {
  imread : string -> option rgb_image;
  embed : rgb_image -> result (ndarray spec_float);
  read_bytes : string -> result string;
  sha256_hexdigest : string -> string;
  write_error : string -> option py_error
}.

Record state : Type := mk_state {
  files : gmap string file;
  stdout : list string
}.

Record arguments : Type := mk_arguments {
  arg_model_type : string;
  arg_checkpoint_name : string;
  arg_out : string
}.

(** [str(e)] in the warning line. *)
Definition error_text (e : py_error) : string :=
  match e with
  | ZeroDivisionError => "division by zero"
  | OverflowError => "int too large to convert to float"
  | ValueError => "invalid value"
  | IndexError => "index out of range"
  | TypeError => "Cannot handle this data type"
  | FileNotFoundError => "No such file or directory"
  | OSError msg => msg
  | EngineError msg => msg
  end.

Definition print (line : string) (st : state) : state :=
  mk_state (files st) (stdout st ++ [line]).

Definition write_file (W : world) (path : string) (content : file) (st : state)
  : result state :=
  match write_error W path with
  | Some e => Raise e
  | None => Ok (mk_state (<[path := content]> (files st)) (stdout st))
  end.

Definition out_path (out_dir stem suffix : string) : string :=
  out_dir +:+ "/" +:+ stem +:+ suffix.

(** The body of the [try] block, lines 121-134. *)
Definition write_sidecar (W : world) (args : arguments) (p : image_path)
    (img_rgb : rgb_image) (st : state) : result state :=
  img_bytes ← read_bytes W (ip_path p);
  let sha := sha256_hexdigest W img_bytes in
  let meta :=
    mk_metadata (ip_name p) (Z.of_nat (rgb_width img_rgb))
      (Z.of_nat (rgb_height img_rgb)) sha
      (arg_model_type args) (arg_checkpoint_name args) in
  write_file W (out_path (arg_out args) (ip_stem p) ".json") (JsonFile meta) st.

(** The [for img_path in iter_images(...)] loop, lines 104-138.  An
    uncaught exception ends the run; the files written so far stay. *)
Fixpoint process_images (W : world) (args : arguments)
    (images : list image_path) (st : state) (count : nat)
  : state * result nat :=
  match images with
  | [] => (st, Ok count)
  | img_path :: rest =>
      match imread W (ip_path img_path) with
      | None =>
          process_images W args rest
            (print ("[WARN] Skipping unreadable image: " +:+ ip_path img_path) st)
            count
      | Some img_rgb =>
          match embed W img_rgb with
          | Raise e => (st, Raise e)
          | Ok npy =>
              let out_file := out_path (arg_out args) (ip_stem img_path) ".npy" in
              match write_file W out_file (NpyFile npy) st with
              | Raise e => (st, Raise e)
              | Ok st1 =>
                  let st2 :=
                    match write_sidecar W args img_path img_rgb st1 with
                    | Ok st' => st'
                    | Raise e =>
                        print ("[WARN] Failed writing metadata json for "
                               +:+ ip_name img_path +:+ ": " +:+ error_text e) st1
                    end in
                  process_images W args rest
                    (print ("[OK] " +:+ ip_name img_path +:+ " -> " +:+ out_file) st2)
                    (S count)
              end
          end
      end
  end.

Definition main (W : world) (args : arguments) (images : list image_path)
    (st : state) : state * result nat :=
  match process_images W args images st 0 with
  | (st', Ok count) =>
      (print ("Done. Wrote " +:+ pretty count +:+ " embedding(s) to " +:+ arg_out args) st',
       Ok count)
  | (st', Raise e) => (st', Raise e)
  end.

(** The images [main] gets an embedding file for: readable, encoded
    without error, and with a writable [.npy] path. *)
Definition embeddable (W : world) (args : arguments) (p : image_path) : Prop :=
  exists img npy,
    imread W (ip_path p) = Some img /\
    embed W img = Ok npy /\
    write_error W (out_path (arg_out args) (ip_stem p) ".npy") = None.

(** A small run used in the examples: [bad.png] cannot be decoded, and
    the sidecar path of [a.png] is not writable. *)
Module Demo.

Definition a_png : image_path := mk_image_path "img/a.png" "a.png" "a".
Definition bad_png : image_path := mk_image_path "img/bad.png" "bad.png" "bad".

Definition the_world : world :=
  mk_world
    (fun path =>
       if decide (path = "img/bad.png") then None
       else Some (mk_rgb_image 480 640 []))
    (fun _ => Ok (np_zeros [1; 256; 64; 64]%nat))
    (fun _ => Ok "")
    (fun _ => "e3b0c44298fc1c149afbf4c8996fb92427ae41e4649b934ca495991b7852b855")
    (fun path =>
       if decide (path = "out/a.json") then Some (OSError "Read-only file system")
       else None).

Definition the_args : arguments := mk_arguments "vit_b" "sam_vit_b.pth" "out".

Definition empty_state : state := mk_state ∅ [].

End Demo.

End Embeddings.

(** ** Vocabulary for whole runs of [generate_sam_embeddings.py] *)

Module Run.
Import Embeddings.

(** [out_dir / (img_path.stem + ".npy")] and its sidecar. *)
Definition npy_path (args : arguments) (p : image_path) : string :=
  out_path (arg_out args) (ip_stem p) ".npy".

Definition json_path (args : arguments) (p : image_path) : string :=
  out_path (arg_out args) (ip_stem p) ".json".

(** [cv2.imread] returns an image. *)
Definition readable (W : world) (p : image_path) : bool :=
  match imread W (ip_path p) with Some _ => true | None => false end.

(** The images a run gets through: unreadable ones, which are skipped,
    and the ones it writes an embedding for. *)
Definition passes (W : world) (args : arguments) (p : image_path) : Prop :=
  readable W p = false \/ embeddable W args p.

Fixpoint last_char (s : string) : option ascii :=
  match s with
  | EmptyString => None
  | String a s' =>
      match last_char s' with
      | Some c => Some c
      | None => Some a
      end
  end.

End Run.

(** ** Vocabulary for click strings *)

Module ClickText.

(** [s.count(c)] for a one-character [c]. *)
Fixpoint count_char (c : ascii) (s : string) : nat :=
  match s with
  | EmptyString => 0%nat
  | String a s' => if decide (a = c) then S (count_char c s') else count_char c s'
  end.

End ClickText.


(** A decoder run on one click, with a decoder that answers an all-zero
    mask. *)
Module DecoderDemo.
Import Decoder.

Definition int_of_str (s : string) : result Z :=
  if decide (s = "0") then Ok 0
  else if decide (s = "1") then Ok 1
  else Raise ValueError.

Definition float_of_str (s : string) : result spec_float :=
  if decide (s = "320") then Ok (F64.of_Z 320)
  else if decide (s = "240") then Ok (F64.of_Z 240)
  else Raise ValueError.

Definition the_session : session :=
  mk_session ["masks"; "iou_predictions"; "low_res_masks"]
    (fun _ => Ok [np_zeros [1; 1; 256; 256]%nat; np_zeros [1; 1]%nat;
                  np_zeros [1; 1; 256; 256]%nat]).

Definition the_files : gmap string file :=
  {["emb.npy" := NpyFile (NpyFloat32 (np_zeros [1; 256; 64; 64]%nat))]}.

Definition the_args (w h : Z) : arguments :=
  mk_arguments "emb.npy" w h ["320,240:1"].

End DecoderDemo.

(** * Properties *)

(** ** An int never rounds to a float zero

    [1024.0 / max(w, h)] raises [ZeroDivisionError] on the converted
    divisor; the lemmas below show that the conversion of a non-zero int
    is never a zero, so that the test amounts to [max(w, h) = 0]. *)

Section IntToFloat.

Lemma digits2_pos_bounds (p : positive) :
  2 ^ (Z.pos (digits2_pos p) - 1) <= Z.pos p < 2 ^ Z.pos (digits2_pos p).
Proof.
  induction p as [p IH | p IH |]; cbn [digits2_pos].
  - rewrite Pos2Z.inj_succ.
    replace (Z.succ (Z.pos (digits2_pos p)) - 1)
      with (Z.succ (Z.pos (digits2_pos p) - 1)) by lia.
    rewrite !Z.pow_succ_r by lia. lia.
  - rewrite Pos2Z.inj_succ.
    replace (Z.succ (Z.pos (digits2_pos p)) - 1)
      with (Z.succ (Z.pos (digits2_pos p) - 1)) by lia.
    rewrite !Z.pow_succ_r by lia. lia.
  - cbn. lia.
Qed.

Lemma shr_1_halves (r : shr_record) :
  0 <= shr_m r -> shr_m (shr_1 r) = shr_m r / 2.
Proof.
  destruct r as [m r s]; cbn [shr_m]; intros Hm.
  destruct m as [| [p | p |] | p]; cbn [shr_1 shr_m]; try lia; try reflexivity.
  - apply Z.div_unique with (r := 1); lia.
  - apply Z.div_unique with (r := 0); lia.
Qed.

Lemma pow2_xO (n : positive) : 2 ^ Z.pos n~0 = 2 ^ Z.pos n * 2 ^ Z.pos n.
Proof. rewrite Pos2Z.inj_xO, <- Z.pow_add_r by lia. f_equal; lia. Qed.

Lemma pow2_xI (n : positive) : 2 ^ Z.pos n~1 = 2 * (2 ^ Z.pos n * 2 ^ Z.pos n).
Proof.
  rewrite Pos2Z.inj_xI, <- Z.pow_add_r, <- Z.pow_succ_r by lia. f_equal; lia.
Qed.

Lemma iter_shr_1_divides (n : positive) (r : shr_record) :
  0 <= shr_m r -> shr_m (iter_pos shr_1 n r) = shr_m r / 2 ^ Z.pos n.
Proof.
  revert r; induction n as [n IH | n IH |]; intros r Hr; cbn [iter_pos].
  - assert (H1 : 0 <= shr_m (shr_1 r))
      by (rewrite shr_1_halves by done; apply Z.div_pos; lia).
    assert (H2 : 0 <= shr_m (iter_pos shr_1 n (shr_1 r)))
      by (rewrite IH by done; apply Z.div_pos; lia).
    rewrite IH, IH, shr_1_halves by done.
    rewrite !Z.div_div by lia.
    by rewrite pow2_xI.
  - assert (H2 : 0 <= shr_m (iter_pos shr_1 n r))
      by (rewrite IH by done; apply Z.div_pos; lia).
    rewrite IH, IH by done.
    rewrite !Z.div_div by lia.
    by rewrite pow2_xO.
  - rewrite shr_1_halves by done. reflexivity.
Qed.

Lemma shr_record_of_loc_m (m : Z) (l : location) :
  shr_m (shr_record_of_loc m l) = m.
Proof. destruct l as [| []]; reflexivity. Qed.

(** Above the smallest exponent the shift keeps at least the leading bit. *)
Lemma shr_fexp_pos (p : positive) (e : Z) (l : location) :
  -1074 <= e ->
  0 < shr_m (fst (shr_fexp 53 1024 (Z.pos p) e l)) /\
  e <= snd (shr_fexp 53 1024 (Z.pos p) e l).
Proof.
  intros He. unfold shr_fexp, shr. cbn [Zdigits2].
  pose proof (digits2_pos_bounds p) as [Hlo _].
  set (d := Z.pos (digits2_pos p)) in *.
  assert (Hn : fexp 53 1024 (d + e) - e < d) by (unfold fexp, emin; lia).
  destruct (fexp 53 1024 (d + e) - e) as [| k | k] eqn:Hk; cbn [fst snd];
    rewrite ?shr_record_of_loc_m; try lia.
  rewrite iter_shr_1_divides by (rewrite shr_record_of_loc_m; lia).
  rewrite shr_record_of_loc_m. split; [| lia].
  apply Z.lt_le_trans with 1; [lia |].
  apply Z.div_le_lower_bound; [lia |].
  rewrite Z.mul_1_r. etransitivity; [| exact Hlo].
  apply Z.pow_le_mono_r; lia.
Qed.

Lemma round_nearest_even_ge (m : Z) (l : location) :
  m <= round_nearest_even m l.
Proof. destruct l as [| []]; cbn; try lia. destruct (Z.even m); lia. Qed.

Lemma binary_round_aux_nonzero (sx : bool) (p : positive) (e : Z) (l : location) :
  -1074 <= e ->
  F64.is_zero (binary_round_aux 53 1024 sx (Z.pos p) e l) = false.
Proof.
  intros He. unfold binary_round_aux.
  pose proof (shr_fexp_pos p e l He) as [Hm1 He1].
  destruct (shr_fexp 53 1024 (Z.pos p) e l) as [r1 e1]; cbn [fst snd] in *.
  pose proof (round_nearest_even_ge (shr_m r1) (loc_of_shr_record r1)) as Hr.
  destruct (round_nearest_even (shr_m r1) (loc_of_shr_record r1))
    as [| p' | p'] eqn:Hp'; try lia.
  pose proof (shr_fexp_pos p' e1 loc_Exact ltac:(lia)) as [Hm2 _].
  destruct (shr_fexp 53 1024 (Z.pos p') e1 loc_Exact) as [r2 e2];
    cbn [fst snd] in *.
  destruct (shr_m r2) as [| q | q]; try lia.
  destruct (e2 <=? 1024 - 53); reflexivity.
Qed.

Lemma binary_round_nonzero (sx : bool) (p : positive) :
  F64.is_zero (binary_round 53 1024 sx p 0) = false.
Proof.
  unfold binary_round, shl_align.
  set (d := Z.pos (digits2_pos p)).
  assert (Hd : 0 < d) by (unfold d; lia).
  assert (Hf : fexp 53 1024 (d + 0) = d - 53) by (unfold fexp, emin; lia).
  rewrite Hf.
  destruct (d - 53 - 0) as [| k | k] eqn:Hk;
    apply binary_round_aux_nonzero; lia.
Qed.

Lemma of_Z_nonzero (z : Z) : z <> 0 -> F64.is_zero (F64.of_Z z) = false.
Proof.
  intros Hz. unfold F64.of_Z, binary_normalize.
  destruct z as [| p | p]; [done | |]; apply binary_round_nonzero.
Qed.

Lemma float_of_int_fits (n : Z) :
  int_fits_float n = true -> float_of_int n = Ok (F64.of_Z n).
Proof.
  unfold int_fits_float, float_of_int. by destruct (F64.is_inf (F64.of_Z n)).
Qed.

Lemma float_div_int_nonzero (a : spec_float) (b : Z) :
  b <> 0 -> int_fits_float b = true ->
  float_div_int a b = Ok (F64.div a (F64.of_Z b)).
Proof.
  intros Hb Hfit. unfold float_div_int.
  rewrite (float_of_int_fits b Hfit). cbn [mbind result_bind].
  by rewrite (of_Z_nonzero b Hb).
Qed.

Lemma float_div_int_zero (a : spec_float) :
  float_div_int a 0 = Raise ZeroDivisionError.
Proof. reflexivity. Qed.

(** *** Ints below [2 ^ 1023] convert, and halve, without overflow *)


Lemma shr_fexp_snd (p : positive) (e : Z) (l : location) :
  snd (shr_fexp 53 1024 (Z.pos p) e l)
  = Z.max e (fexp 53 1024 (Z.pos (digits2_pos p) + e)).
Proof.
  unfold shr_fexp, shr. cbn [Zdigits2].
  destruct (fexp 53 1024 (Z.pos (digits2_pos p) + e) - e) as [| k | k] eqn:Hk;
    cbn [snd]; lia.
Qed.

Lemma shr_fexp_fst_le (p : positive) (e : Z) (l : location) :
  shr_m (fst (shr_fexp 53 1024 (Z.pos p) e l))
    * 2 ^ (snd (shr_fexp 53 1024 (Z.pos p) e l) - e)
  <= Z.pos p.
Proof.
  unfold shr_fexp, shr. cbn [Zdigits2].
  destruct (fexp 53 1024 (Z.pos (digits2_pos p) + e) - e) as [| k | k] eqn:Hk;
    cbn [fst snd]; rewrite ?shr_record_of_loc_m, ?Z.sub_diag; try lia.
  rewrite iter_shr_1_divides by (rewrite shr_record_of_loc_m; lia).
  rewrite shr_record_of_loc_m.
  replace (e + Z.pos k - e) with (Z.pos k) by lia.
  rewrite Z.mul_comm. apply Z.mul_div_le. lia.
Qed.

Lemma shr_fexp_fst_nonneg (m e : Z) (l : location) :
  0 <= m -> 0 <= shr_m (fst (shr_fexp 53 1024 m e l)).
Proof.
  intros Hm. unfold shr_fexp, shr.
  destruct (fexp 53 1024 (Zdigits2 m + e) - e) as [| k | k];
    cbn [fst]; rewrite ?shr_record_of_loc_m; try lia.
  rewrite iter_shr_1_divides by (rewrite shr_record_of_loc_m; lia).
  rewrite shr_record_of_loc_m. apply Z.div_pos; lia.
Qed.

Lemma shr_fexp_fst_zero (e : Z) (l : location) :
  shr_m (fst (shr_fexp 53 1024 0 e l)) = 0.
Proof.
  unfold shr_fexp, shr.
  destruct (fexp 53 1024 (Zdigits2 0 + e) - e) as [| k | k];
    cbn [fst]; rewrite ?shr_record_of_loc_m; try lia.
  rewrite iter_shr_1_divides by (rewrite shr_record_of_loc_m; lia).
  rewrite shr_record_of_loc_m. apply Z.div_0_l. lia.
Qed.

Lemma digits2_pos_le (p : positive) (k : Z) :
  Z.pos p < 2 ^ k -> 0 <= k -> Z.pos (digits2_pos p) <= k.
Proof.
  intros Hp Hk. pose proof (digits2_pos_bounds p) as [Hlo _].
  destruct (Z.le_gt_cases (Z.pos (digits2_pos p)) k) as [| Hgt]; [done |].
  assert (2 ^ k <= 2 ^ (Z.pos (digits2_pos p) - 1))
    by (apply Z.pow_le_mono_r; lia).
  lia.
Qed.

Lemma round_nearest_even_le (m : Z) (l : location) :
  round_nearest_even m l <= m + 1.
Proof. destruct l as [| []]; cbn; try lia. destruct (Z.even m); lia. Qed.

(** A mantissa that already has its 53 digits, or sits at its format
    exponent, rounds to a finite float as long as it stays below
    [2 ^ 1023]. *)
Lemma binary_round_aux_finite (sx : bool) (p : positive) (e : Z) (l : location) :
  e <= fexp 53 1024 (Z.pos (digits2_pos p) + e) ->
  Z.pos (digits2_pos p) + e <= 1023 ->
  F64.is_inf (binary_round_aux 53 1024 sx (Z.pos p) e l) = false.
Proof.
  intros He Hd. unfold binary_round_aux.
  pose proof (shr_fexp_snd p e l) as He1.
  pose proof (shr_fexp_fst_le p e l) as Hm1.
  pose proof (shr_fexp_fst_nonneg (Z.pos p) e l ltac:(lia)) as Hm0.
  destruct (shr_fexp 53 1024 (Z.pos p) e l) as [r1 e1]; cbn [fst snd] in *.
  pose proof (round_nearest_even_le (shr_m r1) (loc_of_shr_record r1)) as Hr.
  pose proof (round_nearest_even_ge (shr_m r1) (loc_of_shr_record r1)) as Hr'.
  destruct (round_nearest_even (shr_m r1) (loc_of_shr_record r1))
    as [| p' | p'] eqn:Hp'; [| | lia].
  { pose proof (shr_fexp_fst_zero e1 loc_Exact) as Hz.
    destruct (shr_fexp 53 1024 0 e1 loc_Exact) as [r2 e2]; cbn [fst] in Hz.
    by rewrite Hz. }
  pose proof (shr_fexp_snd p' e1 loc_Exact) as He2.
  destruct (shr_fexp 53 1024 (Z.pos p') e1 loc_Exact) as [r2 e2];
    cbn [fst snd] in *.
  destruct (shr_m r2) as [| q | q]; [done | | done].
  destruct (Z.leb_spec e2 (1024 - 53)) as [| Hbig]; [done |].
  exfalso.
  pose proof (digits2_pos_bounds p) as [_ Hhi].
  set (d := Z.pos (digits2_pos p)) in *.
  assert (He1' : e1 = fexp 53 1024 (d + e)) by lia.
  assert (Hge : 0 <= e1 - e) by lia.
  assert (Hpow : 0 < 2 ^ (e1 - e)) by (apply Z.pow_pos_nonneg; lia).
  assert (Hm1lt : shr_m r1 < 2 ^ 53).
  { destruct (Z.le_gt_cases d 53) as [Hsmall | Hlarge].
    - assert (2 ^ d <= 2 ^ 53) by (apply Z.pow_le_mono_r; lia). nia.
    - assert (Hsplit : 2 ^ d = 2 ^ 53 * 2 ^ (d - 53)).
      { rewrite <- Z.pow_add_r by lia. f_equal; lia. }
      assert (Hmono : 2 ^ (d - 53) <= 2 ^ (e1 - e))
        by (apply Z.pow_le_mono_r; unfold fexp, emin in *; lia).
      assert (0 < 2 ^ (d - 53)) by (apply Z.pow_pos_nonneg; lia).
      nia. }
  assert (Hp'lt : Z.pos p' < 2 ^ 54).
  { change (2 ^ 54) with (2 * 2 ^ 53). lia. }
  apply digits2_pos_le in Hp'lt; [| lia].
  unfold fexp, emin in *. lia.
Qed.

Lemma shift_pos_digits (k p : positive) :
  Z.pos (digits2_pos (Pos.iter xO p k)) = Z.pos (digits2_pos p) + Z.pos k.
Proof.
  induction k as [| k IH] using Pos.peano_ind.
  - cbn. lia.
  - rewrite Pos.iter_succ. cbn [digits2_pos]. lia.
Qed.

Lemma binary_round_finite (sx : bool) (p : positive) :
  Z.pos (digits2_pos p) <= 1023 ->
  F64.is_inf (binary_round 53 1024 sx p 0) = false.
Proof.
  intros Hd. unfold binary_round, shl_align.
  assert (Hf : fexp 53 1024 (Z.pos (digits2_pos p) + 0)
               = Z.pos (digits2_pos p) - 53) by (unfold fexp, emin; lia).
  rewrite Hf.
  destruct (Z.pos (digits2_pos p) - 53 - 0) as [| k | k] eqn:Hk;
    apply binary_round_aux_finite; rewrite ?shift_pos_digits;
    unfold fexp, emin; lia.
Qed.

(** Every int below [2 ^ 1023] in absolute value converts to a float. *)
Lemma int_below_2_1023_fits (n : Z) :
  Z.abs n < 2 ^ 1023 -> int_fits_float n = true.
Proof.
  intros Hn. unfold int_fits_float, F64.of_Z, binary_normalize.
  destruct n as [| p | p]; [done | |];
    rewrite binary_round_finite; try done;
    apply digits2_pos_le; lia.
Qed.

Lemma digits2_pos_ge (p : positive) (k : Z) :
  2 ^ (k - 1) <= Z.pos p -> k <= Z.pos (digits2_pos p).
Proof.
  intros Hp. pose proof (digits2_pos_bounds p) as [_ Hhi].
  destruct (Z.le_gt_cases k (Z.pos (digits2_pos p))) as [| Hgt]; [done |].
  assert (2 ^ Z.pos (digits2_pos p) <= 2 ^ (k - 1))
    by (apply Z.pow_le_mono_r; lia).
  lia.
Qed.

(** Halving an int below [2 ^ 1023] never overflows. *)
Lemma int_truediv_2_ok (a : Z) :
  Z.abs a < 2 ^ 1023 -> is_ok (int_truediv a 2) = true.
Proof.
  intros Ha. unfold int_truediv, F64.prec, F64.emax.
  change (2 =? 0) with false. cbv iota.
  destruct (Z.eqb_spec a 0) as [| Hnz]; [done |].
  assert (Hp : exists p, Z.abs a = Z.pos p).
  { destruct a as [| p | p]; [done | by exists p..]. }
  destruct Hp as [p Hp]. rewrite Hp in *. cbn [Z.abs].
  unfold SFdiv_core_binary.
  change (Z.abs 2) with 2. change (Zdigits2 2) with 2.
  change (Zdigits2 (Z.pos p)) with (Z.pos (digits2_pos p)).
  pose proof (digits2_pos_bounds p) as [Hlo Hhi].
  pose proof (digits2_pos_le p 1023 Ha ltac:(lia)) as Hd.
  set (d := Z.pos (digits2_pos p)) in *.
  set (e' := Z.min (fexp 53 1024 (d + 0 - (2 + 0))) (0 - 0)).
  assert (He' : e' <= 0) by (unfold e'; lia).
  assert (He'lo : d - 55 <= e' \/ e' = 0)
    by (unfold e', fexp, emin; lia).
  assert (He'hi : e' <= fexp 53 1024 (d - 2))
    by (unfold e', fexp, emin; lia).
  replace (0 - 0 - e') with (- e') by lia.
  pose proof (Z.div_eucl_eq
                (match - e' with
                 | 0 => Z.pos p
                 | Z.pos _ => Z.shiftl (Z.pos p) (- e')
                 | Z.neg _ => 0
                 end) 2 ltac:(lia)) as Hdiv.
  pose proof (Z.mod_pos_bound
                (match - e' with
                 | 0 => Z.pos p
                 | Z.pos _ => Z.shiftl (Z.pos p) (- e')
                 | Z.neg _ => 0
                 end) 2 ltac:(lia)) as Hmod.
  unfold Z.modulo in Hmod.
  destruct (Z.div_eucl _ 2) as [q r]. cbv iota beta.
  assert (Hm' : match - e' with
                | 0 => Z.pos p
                | Z.pos _ => Z.shiftl (Z.pos p) (- e')
                | Z.neg _ => 0
                end = Z.pos p * 2 ^ (- e')).
  { destruct (- e') as [| k | k] eqn:Hk; [| | lia].
    - cbn. lia.
    - rewrite Z.shiftl_mul_pow2 by lia. reflexivity. }
  rewrite Hm' in Hdiv.
  assert (Hpow : 0 < 2 ^ (- e')) by (apply Z.pow_pos_nonneg; lia).
  assert (Hqpos : 0 < 2 ^ (d - e' - 2))
    by (apply Z.pow_pos_nonneg; unfold fexp, emin in *; lia).
  assert (Hlo' : 2 ^ (d - e' - 2) <= q).
  { assert (Hs : 2 ^ (d - e' - 1) = 2 ^ (d - 1) * 2 ^ (- e'))
      by (rewrite <- Z.pow_add_r by lia; f_equal; lia).
    assert (Hs' : 2 ^ (d - e' - 1) = 2 * 2 ^ (d - e' - 2)).
    { rewrite <- Z.pow_succ_r by (unfold fexp, emin in *; lia). f_equal; lia. }
    assert (Hev : exists c, 2 ^ (d - e' - 2) = c /\ 0 < c).
    { eexists; split; [reflexivity |].
      apply Z.pow_pos_nonneg; unfold fexp, emin in *; lia. }
    destruct Hev as (c & Hc & Hcpos). rewrite Hc in *. nia. }
  assert (Hhi' : q < 2 ^ (d - e' - 1)).
  { assert (Hs : 2 ^ (d - e') = 2 ^ d * 2 ^ (- e'))
      by (rewrite <- Z.pow_add_r by lia; f_equal; lia).
    assert (Hs' : 2 ^ (d - e') = 2 * 2 ^ (d - e' - 1)).
    { rewrite <- Z.pow_succ_r by lia. f_equal; lia. }
    nia. }
  destruct q as [| q | q]; [lia | | lia].
  rewrite binary_round_aux_finite; [done | |].
  - replace (d - e' - 2) with (d - e' - 1 - 1) in Hlo' by lia.
    apply digits2_pos_ge in Hlo'.
    unfold fexp, emin in *. lia.
  - apply digits2_pos_le in Hhi'; lia.
Qed.

End IntToFloat.

(** ** The prompt normalizer *)

Module NormalizerFacts.
Import Decoder.

Lemma ravel_coords (n i k : nat) :
  (i < n)%nat -> (k < 2)%nat ->
  ravel [1; n; 2]%nat [0; i; k]%nat = Some (2 * i + k)%nat.
Proof.
  intros Hi Hk. cbn [ravel].
  rewrite !decide_True by lia. cbn. f_equal. lia.
Qed.

Lemma ravel_labels (n i : nat) :
  (i < n)%nat -> ravel [1; n]%nat [0; i]%nat = Some i.
Proof.
  intros Hi. cbn [ravel].
  rewrite !decide_True by lia. cbn. f_equal. lia.
Qed.

(** The loop invariant: rows below [i] are written, the others are
    still the zeros of [np.zeros]. *)
Lemma fill_points_closed (scale : spec_float) (clicks : list click) :
  forall (n i : nat) (dc dl : list spec_float),
    Forall label_fits clicks ->
    length dc = (2 * i)%nat -> length dl = i ->
    (i + length clicks < n)%nat ->
    fill_points scale i clicks
      (mk_ndarray [1; n; 2]%nat (dc ++ replicate (2 * (n - i)) F64.zero))
      (mk_ndarray [1; n]%nat (dl ++ replicate (n - i) F64.zero))
    = Ok (mk_ndarray [1; n; 2]%nat
            (dc ++ (clicks ≫= coords_row scale)
                ++ replicate (2 * (n - i - length clicks)) F64.zero),
          mk_ndarray [1; n]%nat
            (dl ++ (label_cell <$> clicks)
                ++ replicate (n - i - length clicks) F64.zero)).
Proof.
  induction clicks as [| [[x y] lbl] rest IH]; intros n i dc dl Hfit Hdc Hdl Hn.
  - cbn. by rewrite !Nat.sub_0_r.
  - apply Forall_cons in Hfit as [Hlbl Hrest]. cbn [length] in Hn.
    cbn [fill_points]. unfold nd_setitem; cbn [nd_shape nd_data].
    rewrite ravel_coords by lia. cbn [mbind result_bind nd_shape nd_data].
    rewrite ravel_coords by lia. cbn [mbind result_bind nd_shape nd_data].
    rewrite (float_of_int_fits lbl Hlbl). cbn [mbind result_bind].
    rewrite ravel_labels by lia. cbn [mbind result_bind].
    replace (2 * (n - i))%nat with (S (S (2 * (n - S i)))) by lia.
    replace (n - i)%nat with (S (n - S i)) by lia.
    cbn [replicate].
    rewrite Nat.add_0_r.
    rewrite (insert_app_r_alt dc _ (2 * i)) by lia.
    rewrite Hdc, Nat.sub_diag. cbn [insert list_insert].
    rewrite (insert_app_r_alt dc _ (2 * i + 1)) by lia.
    replace (2 * i + 1 - length dc)%nat with 1%nat by lia.
    cbn [insert list_insert].
    rewrite (insert_app_r_alt dl _ i) by lia.
    rewrite Hdl, Nat.sub_diag. cbn [insert list_insert].
    specialize (IH n (S i)
      (dc ++ [F32.of_f64 (F64.mul x scale); F32.of_f64 (F64.mul y scale)])
      (dl ++ [F32.of_f64 (F64.of_Z lbl)]) Hrest).
    rewrite <- !app_assoc in IH. cbn [app] in IH.
    rewrite IH by (rewrite ?length_app; cbn; lia).
    cbn [mbind list_bind fmap list_fmap coords_row label_cell app length].
    repeat f_equal; lia.
Qed.

Lemma point_tensors_closed (scale : spec_float) (clicks : list click) :
  Forall label_fits clicks ->
  point_tensors scale clicks
  = Ok (mk_ndarray [1; length clicks + 1; 2]%nat
          ((clicks ≫= coords_row scale) ++ [F64.zero; F64.zero]),
        mk_ndarray [1; length clicks + 1]%nat
          ((label_cell <$> clicks) ++ [padding_label])).
Proof.
  intros Hfit. unfold point_tensors, np_zeros.
  pose proof (fill_points_closed scale clicks (length clicks + 1) 0 [] []
                Hfit eq_refl eq_refl ltac:(lia)) as H.
  cbn [app] in H.
  replace (shape_size [1; length clicks + 1; 2]%nat)
    with (2 * (length clicks + 1 - 0))%nat by (cbn; lia).
  replace (shape_size [1; length clicks + 1]%nat)
    with (length clicks + 1 - 0)%nat by (cbn; lia).
  rewrite H. cbn [mbind result_bind].
  unfold nd_setitem; cbn [nd_shape nd_data].
  rewrite ravel_labels by lia. cbn [mbind result_bind].
  replace (length clicks + 1 - 0 - length clicks)%nat with 1%nat by lia.
  cbn [replicate Nat.mul].
  rewrite insert_app_r_alt by (rewrite length_fmap; lia).
  rewrite length_fmap, Nat.sub_diag. reflexivity.
Qed.

Lemma sam_scale_nonzero (w h : Z) :
  Z.max w h <> 0 -> int_fits_float (Z.max w h) = true ->
  sam_scale w h = Ok (scale_of w h).
Proof. intros. by apply float_div_int_nonzero. Qed.

Lemma sam_scale_zero (w h : Z) :
  Z.max w h = 0 -> sam_scale w h = Raise ZeroDivisionError.
Proof. intros H. unfold sam_scale. by rewrite H. Qed.

Lemma normalize_closed (clicks : list click) (w h : Z) :
  Z.max w h <> 0 -> int_fits_float (Z.max w h) = true ->
  clicks <> [] -> Forall label_fits clicks ->
  normalize clicks w h
  = Ok (mk_ndarray [1; length clicks + 1; 2]%nat
          ((clicks ≫= coords_row (scale_of w h)) ++ [F64.zero; F64.zero]),
        mk_ndarray [1; length clicks + 1]%nat
          ((label_cell <$> clicks) ++ [padding_label])).
Proof.
  intros Hmax Hfit Hne Hlbl. unfold normalize.
  rewrite sam_scale_nonzero by done. cbn [mbind result_bind].
  destruct clicks as [| c rest]; [done |].
  cbn [default_clicks mbind result_bind].
  by apply point_tensors_closed.
Qed.

Lemma coords_lookup (scale : spec_float) (clicks : list click) (i : nat)
    (x y : spec_float) (lbl : Z) :
  clicks !! i = Some (x, y, lbl) ->
  (clicks ≫= coords_row scale) !! (2 * i)%nat
    = Some (F32.of_f64 (F64.mul x scale)) /\
  (clicks ≫= coords_row scale) !! (2 * i + 1)%nat
    = Some (F32.of_f64 (F64.mul y scale)).
Proof.
  revert i; induction clicks as [| [[x' y'] l'] rest IH]; intros i Hi; [done |].
  destruct i as [| i].
  - cbn in Hi. injection Hi as -> -> ->. by cbn.
  - cbn in Hi. destruct (IH i Hi) as [H0 H1].
    replace (2 * S i)%nat with (S (S (2 * i))) by lia.
    replace (S (S (2 * i)) + 1)%nat with (S (S (2 * i + 1))) by lia.
    by cbn.
Qed.

End NormalizerFacts.

Module NormalizerSpec.
Import Decoder NormalizerFacts.

(** C1. For a positive width and height, [normalize] uses the one scale
    [1024.0 / max(w, h)] and stores, for every supplied click
    [(x, y, label)] at position [i], the cells [x * scale], [y * scale]
    and [float(label)], which for the labels -1, 0 and 1 is the label
    itself; for a 640x480 image and the click [(320, 240, 1)] the scale
    is the float 1.6 and the stored row is [(512, 384)]. *)
Theorem normalize_scales_every_prompt (clicks : list click) (w h : Z) :
  0 < w -> 0 < h -> int_fits_float (Z.max w h) = true ->
  clicks <> [] -> Forall label_fits clicks ->
  sam_scale w h = Ok (F64.div target_long_side (F64.of_Z (Z.max w h))) /\
  (exists pc pl,
      normalize clicks w h = Ok (pc, pl) /\
      forall (i : nat) (x y : spec_float) (lbl : Z),
        clicks !! i = Some (x, y, lbl) ->
        nd_lookup pc [0; i; 0]%nat
          = Some (F32.of_f64 (F64.mul x (scale_of w h))) /\
        nd_lookup pc [0; i; 1]%nat
          = Some (F32.of_f64 (F64.mul y (scale_of w h))) /\
        nd_lookup pl [0; i]%nat = Some (F32.of_f64 (F64.of_Z lbl)) /\
        (lbl = -1 \/ lbl = 0 \/ lbl = 1 ->
         exact_int (F32.of_f64 (F64.of_Z lbl)) = Some lbl)) /\
  sam_scale 640 480 = Ok (F64.div (F64.of_Z 16) (F64.of_Z 10)) /\
  (exists pc pl,
      normalize [(F64.of_Z 320, F64.of_Z 240, 1)] 640 480 = Ok (pc, pl) /\
      nd_shape pc = [1; 2; 2]%nat /\
      exact_int <$> nd_data pc = [Some 512; Some 384; Some 0; Some 0] /\
      nd_shape pl = [1; 2]%nat /\
      exact_int <$> nd_data pl = [Some 1; Some (-1)]).
Proof.
  intros Hw Hh Hfit Hne Hlbl.
  split; [apply sam_scale_nonzero; [lia | done] |].
  split; [| split; [vm_compute; reflexivity |]].
  - eexists _, _. split; [apply normalize_closed; [lia | done..] |].
    intros i x y lbl Hi.
    pose proof (lookup_lt_Some _ _ _ Hi) as Hlt.
    destruct (coords_lookup (scale_of w h) clicks i x y lbl Hi) as [H0 H1].
    unfold nd_lookup; cbn [nd_shape nd_data].
    rewrite (ravel_coords (length clicks + 1) i 0) by lia.
    rewrite (ravel_coords (length clicks + 1) i 1) by lia.
    rewrite (ravel_labels (length clicks + 1) i) by lia.
    cbn [mbind option_bind]. rewrite Nat.add_0_r.
    split; [by apply lookup_app_l_Some |].
    split; [by apply lookup_app_l_Some |].
    split.
    + apply lookup_app_l_Some. rewrite list_lookup_fmap, Hi. reflexivity.
    + intros [-> | [-> | ->]]; reflexivity.
  - eexists _, _. split; [vm_compute; reflexivity |].
    repeat split.
Qed.

(** Scenario A: a 640x480 image and the click [(320, 240, 1)]. *)
Lemma normalize_scales_every_prompt_witness :
  exists pc pl,
    normalize [(F64.of_Z 320, F64.of_Z 240, 1)] 640 480 = Ok (pc, pl) /\
    forall (i : nat) (x y : spec_float) (lbl : Z),
      [(F64.of_Z 320, F64.of_Z 240, 1)] !! i = Some (x, y, lbl) ->
      nd_lookup pc [0; i; 0]%nat
        = Some (F32.of_f64 (F64.mul x (scale_of 640 480))) /\
      nd_lookup pc [0; i; 1]%nat
        = Some (F32.of_f64 (F64.mul y (scale_of 640 480))) /\
      nd_lookup pl [0; i]%nat = Some (F32.of_f64 (F64.of_Z lbl)) /\
      (lbl = -1 \/ lbl = 0 \/ lbl = 1 ->
       exact_int (F32.of_f64 (F64.of_Z lbl)) = Some lbl).
Proof.
  refine (proj1 (proj2 (normalize_scales_every_prompt
                   [(F64.of_Z 320, F64.of_Z 240, 1)] 640 480 _ _ _ _ _))).
  - lia.
  - lia.
  - reflexivity.
  - discriminate.
  - repeat constructor.
Defined.

(** C2. For [N >= 1] supplied clicks both point arrays have [N + 1]
    rows, and the last row is the padding entry: coordinate [(0, 0)]
    and label [-1]. *)
Theorem point_arrays_have_padding_row (clicks : list click) (w h : Z) (N : nat) :
  (1 <= N)%nat -> length clicks = N ->
  0 < w -> 0 < h -> int_fits_float (Z.max w h) = true ->
  Forall label_fits clicks ->
  exists pc pl,
    normalize clicks w h = Ok (pc, pl) /\
    nd_shape pc = [1; N + 1; 2]%nat /\ nd_wf pc /\
    nd_shape pl = [1; N + 1]%nat /\ nd_wf pl /\
    nd_lookup pc [0; N; 0]%nat = Some F64.zero /\
    nd_lookup pc [0; N; 1]%nat = Some F64.zero /\
    nd_lookup pl [0; N]%nat = Some padding_label /\
    exact_int F64.zero = Some 0 /\ exact_int padding_label = Some (-1).
Proof.
  intros HN Hlen Hw Hh Hfit Hlbl.
  assert (Hne : clicks <> []) by (intros ->; cbn in Hlen; lia).
  assert (Hrows : length (clicks ≫= coords_row (scale_of w h)) = (2 * N)%nat).
  { clear -Hlen. subst N. induction clicks as [| [[x y] l] rest IH]; [done |].
    cbn [mbind list_bind coords_row length app]. rewrite IH. lia. }
  eexists _, _. split; [apply normalize_closed; [lia | done..] |].
  rewrite Hlen. unfold nd_wf, nd_lookup; cbn [nd_shape nd_data].
  rewrite (ravel_coords (N + 1) N 0) by lia.
  rewrite (ravel_coords (N + 1) N 1) by lia.
  rewrite (ravel_labels (N + 1) N) by lia.
  cbn [mbind option_bind]. rewrite Nat.add_0_r.
  repeat split.
  - rewrite length_app, Hrows. cbn. lia.
  - rewrite length_app, length_fmap, Hlen. cbn. lia.
  - rewrite lookup_app_r by lia. by rewrite Hrows, Nat.sub_diag.
  - rewrite lookup_app_r by lia.
    by replace (2 * N + 1 - length (clicks ≫= coords_row (scale_of w h)))%nat
      with 1%nat by lia.
  - rewrite lookup_app_r by (rewrite length_fmap; lia).
    by rewrite length_fmap, Hlen, Nat.sub_diag.
Qed.

(** Scenario C: two clicks with labels 1 and 0 on a 640x480 image. *)
Lemma point_arrays_have_padding_row_witness :
  exists pc pl,
    normalize [(F64.of_Z 100, F64.of_Z 50, 1); (F64.of_Z 20, F64.of_Z 40, 0)]
      640 480 = Ok (pc, pl) /\
    nd_shape pc = [1; 3; 2]%nat /\ nd_wf pc /\
    nd_shape pl = [1; 3]%nat /\ nd_wf pl /\
    nd_lookup pc [0; 2; 0]%nat = Some F64.zero /\
    nd_lookup pc [0; 2; 1]%nat = Some F64.zero /\
    nd_lookup pl [0; 2]%nat = Some padding_label /\
    exact_int F64.zero = Some 0 /\ exact_int padding_label = Some (-1).
Proof.
  apply (point_arrays_have_padding_row
           [(F64.of_Z 100, F64.of_Z 50, 1); (F64.of_Z 20, F64.of_Z 40, 0)]
           640 480 2).
  - lia.
  - reflexivity.
  - lia.
  - lia.
  - reflexivity.
  - repeat constructor.
Defined.

(** C3. With no click supplied, [normalize] works on the single
    positive click at the image centre [(w / 2, h / 2)]: the arrays have
    two rows, the scaled centre with label 1 and the padding row. *)
Theorem empty_prompts_default_to_center (w h : Z) :
  0 < w < 2 ^ 1023 -> 0 < h < 2 ^ 1023 ->
  exists cx cy,
    int_truediv w 2 = Ok cx /\ int_truediv h 2 = Ok cy /\
    default_clicks w h [] = Ok [(cx, cy, 1)] /\
    normalize [] w h = normalize [(cx, cy, 1)] w h /\
    normalize [] w h
    = Ok (mk_ndarray [1; 2; 2]%nat
            [F32.of_f64 (F64.mul cx (scale_of w h));
             F32.of_f64 (F64.mul cy (scale_of w h));
             F64.zero; F64.zero],
          mk_ndarray [1; 2]%nat [label_cell (cx, cy, 1); padding_label]) /\
    exact_int (label_cell (cx, cy, 1)) = Some 1 /\
    exact_int padding_label = Some (-1).
Proof.
  intros Hw Hh.
  pose proof (int_truediv_2_ok w ltac:(lia)) as Hcx.
  pose proof (int_truediv_2_ok h ltac:(lia)) as Hcy.
  destruct (int_truediv w 2) as [cx | e] eqn:Ecx; [| done].
  destruct (int_truediv h 2) as [cy | e] eqn:Ecy; [| done].
  assert (Hfit : int_fits_float (Z.max w h) = true)
    by (apply int_below_2_1023_fits; lia).
  assert (Hdef : default_clicks w h [] = Ok [(cx, cy, 1)]).
  { unfold default_clicks. by rewrite Ecx, Ecy. }
  assert (Heq : normalize [] w h = normalize [(cx, cy, 1)] w h).
  { unfold normalize. rewrite sam_scale_nonzero by (done || lia).
    cbn [mbind result_bind]. rewrite Hdef. reflexivity. }
  exists cx, cy. do 4 (split; [done |]).
  split; [| split; reflexivity].
  rewrite Heq, normalize_closed; [reflexivity | lia | done | done |].
  repeat constructor.
Qed.

Lemma empty_prompts_default_to_center_witness :
  exists cx cy,
    int_truediv 640 2 = Ok cx /\ int_truediv 480 2 = Ok cy /\
    default_clicks 640 480 [] = Ok [(cx, cy, 1)] /\
    normalize [] 640 480 = normalize [(cx, cy, 1)] 640 480 /\
    normalize [] 640 480
    = Ok (mk_ndarray [1; 2; 2]%nat
            [F32.of_f64 (F64.mul cx (scale_of 640 480));
             F32.of_f64 (F64.mul cy (scale_of 640 480));
             F64.zero; F64.zero],
          mk_ndarray [1; 2]%nat [label_cell (cx, cy, 1); padding_label]) /\
    exact_int (label_cell (cx, cy, 1)) = Some 1 /\
    exact_int padding_label = Some (-1).
Proof.
  apply (empty_prompts_default_to_center 640 480).
  - split; [lia | reflexivity].
  - split; [lia | reflexivity].
Defined.

(** The centre of a 640x480 image is the click [(320, 240)], stored
    after scaling as [(512, 384)]. *)
Lemma default_click_of_640_480 :
  default_clicks 640 480 [] = Ok [(F64.of_Z 320, F64.of_Z 240, 1)] /\
  exact_int (F64.of_Z 320) = Some 320 /\ exact_int (F64.of_Z 240) = Some 240 /\
  exists pc pl,
    normalize [] 640 480 = Ok (pc, pl) /\
    exact_int <$> nd_data pc = [Some 512; Some 384; Some 0; Some 0] /\
    exact_int <$> nd_data pl = [Some 1; Some (-1)].
Proof.
  do 3 (split; [reflexivity |]).
  eexists _, _. split; [vm_compute; reflexivity |]. split; reflexivity.
Qed.

End NormalizerSpec.

Module ValidationSpec.
Import Decoder NormalizerFacts.

(** [parse_click] hands on whatever integer [int] reads after the
    colon: no range check is applied to the label. *)
Lemma parse_click_label_unchecked
    (int_of_str : string -> result Z) (float_of_str : string -> result spec_float)
    (s xy lbl x_str y_str : string) (x y : spec_float) (n : Z) :
  split_first ":"%char s = Some (xy, lbl) ->
  int_of_str lbl = Ok n ->
  split_all ","%char xy = [x_str; y_str] ->
  float_of_str x_str = Ok x -> float_of_str y_str = Ok y ->
  parse_click int_of_str float_of_str s = Ok (x, y, n).
Proof.
  intros Hs Hn Hxy Hx Hy. unfold parse_click.
  rewrite Hs, Hn. cbn [mbind result_bind]. rewrite Hxy, Hx, Hy. reflexivity.
Qed.

(** C4, as the code has it: [normalize] validates neither the image
    size nor the labels.  With at least one click, its only failure is
    the [ZeroDivisionError] of the scale when [max(w, h) = 0]; for every
    other size, negative ones included, and for every label it builds
    the arrays and copies the labels. *)
Theorem normalize_fails_only_on_zero_long_side (clicks : list click) (w h : Z) :
  int_fits_float (Z.max w h) = true ->
  clicks <> [] -> Forall label_fits clicks ->
  normalize clicks w h
  = if Z.max w h =? 0 then Raise ZeroDivisionError
    else Ok (mk_ndarray [1; length clicks + 1; 2]%nat
               ((clicks ≫= coords_row (scale_of w h)) ++ [F64.zero; F64.zero]),
             mk_ndarray [1; length clicks + 1]%nat
               ((label_cell <$> clicks) ++ [padding_label])).
Proof.
  intros Hfit Hne Hlbl.
  destruct (Z.eqb_spec (Z.max w h) 0) as [H0 | H0].
  - unfold normalize. by rewrite sam_scale_zero.
  - by apply normalize_closed.
Qed.

Lemma normalize_fails_only_on_zero_long_side_witness :
  normalize [(F64.of_Z 320, F64.of_Z 240, 7)] (-640) (-480)
  = Ok (mk_ndarray [1; 2; 2]%nat
          [F32.of_f64 (F64.mul (F64.of_Z 320) (scale_of (-640) (-480)));
           F32.of_f64 (F64.mul (F64.of_Z 240) (scale_of (-640) (-480)));
           F64.zero; F64.zero],
        mk_ndarray [1; 2]%nat [f32_of_int 7; f32_of_int (-1)]).
Proof.
  refine (eq_trans
    (normalize_fails_only_on_zero_long_side
       [(F64.of_Z 320, F64.of_Z 240, 7)] (-640) (-480) _ _ _) _).
  - reflexivity.
  - discriminate.
  - repeat constructor.
  - reflexivity.
Defined.

(** Counterexample to C4: a negative size with a label 7, and a zero
    width, are accepted, and the point arrays are built from them. *)
Lemma normalize_accepts_invalid_inputs :
  normalize [(F64.of_Z 320, F64.of_Z 240, 7)] (-640) (-480)
  = Ok (mk_ndarray [1; 2; 2]%nat
          [F32.of_f64 (F64.mul (F64.of_Z 320) (scale_of (-640) (-480)));
           F32.of_f64 (F64.mul (F64.of_Z 240) (scale_of (-640) (-480)));
           F64.zero; F64.zero],
        mk_ndarray [1; 2]%nat [f32_of_int 7; f32_of_int (-1)]) /\
  is_ok (normalize [(F64.of_Z 320, F64.of_Z 240, 1)] 0 480) = true.
Proof. split; vm_compute; reflexivity. Qed.

End ValidationSpec.

(** ** The embedding store *)

Module EmbeddingStoreSpec.
Import Decoder.

Lemma astype_float32_shape (a : npy_array) :
  nd_shape (astype_float32 a) = shape_of a.
Proof. by destruct a. Qed.

Lemma astype_float32_size (a : npy_array) :
  length (nd_data (astype_float32 a))
  = match a with
    | NpyFloat32 a | NpyFloat64 a => length (nd_data a)
    | NpyInt64 a => length (nd_data a)
    end.
Proof. destruct a; cbn; by rewrite ?length_fmap. Qed.

(** Loading fails only for a missing file or a file that is not an
    array. *)
Lemma load_embedding_cases (fs : gmap string file) (path : string) :
  load_embedding fs path
  = match fs !! path with
    | Some (NpyFile a) => Ok (astype_float32 a)
    | Some (OtherFile _) => Raise ValueError
    | None => Raise FileNotFoundError
    end.
Proof.
  unfold load_embedding, np_load. by destruct (fs !! path) as [[a | c] |].
Qed.

(** C5, as the code has it: loading checks neither the shape nor the
    element type.  Every stored array is accepted, whatever its rank and
    dimensions; its shape and size are kept as they are and its cells
    are cast to float32. *)
Theorem load_embedding_keeps_shape_and_casts
    (fs : gmap string file) (path : string) (a : npy_array) :
  fs !! path = Some (NpyFile a) ->
  load_embedding fs path = Ok (astype_float32 a) /\
  nd_shape (astype_float32 a) = shape_of a /\
  (nd_wf (astype_float32 a) <->
   match a with
   | NpyFloat32 a | NpyFloat64 a => nd_wf a
   | NpyInt64 a => nd_wf a
   end).
Proof.
  intros Ha. rewrite load_embedding_cases, Ha.
  split; [done |]. split; [apply astype_float32_shape |].
  unfold nd_wf. rewrite astype_float32_size, astype_float32_shape.
  by destruct a.
Qed.

Lemma load_embedding_keeps_shape_and_casts_witness :
  load_embedding
    {["emb.npy" := NpyFile (NpyFloat32 (np_zeros [1; 256; 64; 64]%nat))]} "emb.npy"
  = Ok (np_zeros [1; 256; 64; 64]%nat).
Proof.
  apply (load_embedding_keeps_shape_and_casts
           {["emb.npy" := NpyFile (NpyFloat32 (np_zeros [1; 256; 64; 64]%nat))]}
           "emb.npy" (NpyFloat32 (np_zeros [1; 256; 64; 64]%nat))).
  apply lookup_singleton_eq.
Defined.

(** Counterexample to C5: an array of shape [1, 128, 64, 64] loads, and a
    float64 array is cast, its cell 0.1 rounded to float32. *)
Lemma load_embedding_accepts_other_shape_and_dtype :
  load_embedding
    {["emb.npy" := NpyFile (NpyFloat32 (np_zeros [1; 128; 64; 64]%nat))]} "emb.npy"
  = Ok (np_zeros [1; 128; 64; 64]%nat) /\
  load_embedding
    {["emb.npy" := NpyFile (NpyFloat64
        (mk_ndarray [1%nat] [F64.div (F64.of_Z 1) (F64.of_Z 10)]))]} "emb.npy"
  = Ok (mk_ndarray [1%nat] [S754_finite false 13421773 (-27)]) /\
  F64.div (F64.of_Z 1) (F64.of_Z 10) <> S754_finite false 13421773 (-27).
Proof.
  unfold load_embedding, np_load. rewrite !lookup_singleton_eq.
  split; [reflexivity |]. split; [vm_compute; reflexivity |].
  vm_compute. discriminate.
Qed.

End EmbeddingStoreSpec.

(** ** Rasters and nearest-neighbour resampling *)

Module RasterFacts.
Import Decoder.

Lemma length_raster (w h : nat) (f : nat -> nat -> Z) :
  length (raster w h f) = (h * w)%nat.
Proof.
  unfold raster. generalize 0%nat at 2 as s.
  induction h as [| h IH]; intros s; [done |].
  cbn [seq flat_map]. rewrite length_app, IH, length_map, length_seq. lia.
Qed.

Lemma lookup_rows (w : nat) (g : nat -> nat -> Z) (ys : list nat) (x j y : nat) :
  (x < w)%nat -> ys !! j = Some y ->
  flat_map (fun y => map (fun x => g x y) (seq 0 w)) ys !! (j * w + x)%nat
  = Some (g x y).
Proof.
  intros Hx. revert j; induction ys as [| y' ys IH]; intros j Hj; [done |].
  cbn [flat_map]. destruct j as [| j].
  - cbn in Hj. injection Hj as ->. cbn [Nat.mul Nat.add].
    rewrite lookup_app_l by (rewrite length_map, length_seq; lia).
    rewrite list_lookup_fmap, lookup_seq_lt by lia. reflexivity.
  - cbn in Hj. rewrite lookup_app_r by (rewrite length_map, length_seq; lia).
    rewrite length_map, length_seq.
    replace (S j * w + x - w)%nat with (j * w + x)%nat by lia.
    by apply IH.
Qed.

Lemma nth_raster (w h : nat) (f : nat -> nat -> Z) (x y : nat) :
  (x < w)%nat -> (y < h)%nat -> nth (y * w + x) (raster w h f) 0 = f x y.
Proof.
  intros Hx Hy. apply nth_lookup_Some with (d := 0).
  unfold raster. apply lookup_rows; [done |].
  by rewrite lookup_seq_lt.
Qed.

Lemma raster_ext (w h : nat) (f g : nat -> nat -> Z) :
  (forall x y, (x < w)%nat -> (y < h)%nat -> f x y = g x y) ->
  raster w h f = raster w h g.
Proof.
  intros Hfg. unfold raster.
  assert (Hrows : Forall (fun y => (y < h)%nat) (seq 0 h)).
  { apply Forall_forall. intros y Hy. apply elem_of_seq in Hy. lia. }
  induction Hrows as [| y ys Hy _ IH]; [done |].
  cbn [flat_map]. rewrite IH. f_equal.
  apply map_ext_in. intros x Hx. apply in_seq in Hx. apply Hfg; lia.
Qed.

Lemma raster_of_buffer (w h : nat) (l : list Z) :
  length l = (h * w)%nat ->
  raster w h (fun x y => nth (y * w + x) l 0) = l.
Proof.
  intros Hlen. apply list_eq. intros i.
  destruct (decide (i < h * w)%nat) as [Hi | Hi].
  - assert (Hw : (0 < w)%nat) by (destruct w; lia).
    pose proof (Nat.div_mod_eq i w) as Hdm.
    pose proof (Nat.mod_upper_bound i w ltac:(lia)) as Hmod.
    assert (Hy : (i / w < h)%nat) by (apply Nat.Div0.div_lt_upper_bound; lia).
    destruct (nth_lookup_or_length l i 0) as [Hl | Hl]; [| lia].
    rewrite Hl.
    replace i with (i / w * w + i mod w)%nat at 1 by lia.
    unfold raster.
    rewrite (lookup_rows w _ _ _ _ (i / w)) by (done || by rewrite lookup_seq_lt).
    do 2 f_equal. lia.
  - rewrite !lookup_ge_None_2; [done | lia | rewrite length_raster; lia].
Qed.
End RasterFacts.

Module ResizeFacts.
Import Decoder RasterFacts.

Lemma nearest_src_lt (i src dst : nat) :
  (i < dst)%nat -> (0 < src)%nat -> (nearest_src i src dst < src)%nat.
Proof.
  intros Hi Hsrc. unfold nearest_src.
  apply Nat.Div0.div_lt_upper_bound. nia.
Qed.

(** Enlarging and sampling back lands on the pixel one started from. *)
Lemma nearest_src_round_trip (x n m : nat) :
  (x < n)%nat -> (n <= m)%nat ->
  nearest_src (nearest_src x m n) n m = x.
Proof.
  intros Hx Hnm. unfold nearest_src.
  pose proof (Nat.div_mod_eq ((2 * x + 1) * m) (2 * n)) as Hdm.
  pose proof (Nat.mod_upper_bound ((2 * x + 1) * m) (2 * n) ltac:(lia)) as Hr.
  set (X := ((2 * x + 1) * m / (2 * n))%nat) in *.
  set (r := (((2 * x + 1) * m) mod (2 * n))%nat) in *.
  symmetry. apply Nat.div_unique with (r := ((2 * X + 1) * n - 2 * m * x)%nat).
  - destruct (decide (n = m)) as [-> | Hne]; [| nia].
    assert (X = x) by nia. subst X. nia.
  - nia.
Qed.

Lemma resize_nearest_ok (im : image) (w h : Z) :
  0 < w -> 0 < h ->
  resize_nearest im (w, h)
  = Ok (mk_image (Z.to_nat w) (Z.to_nat h)
          (raster (Z.to_nat w) (Z.to_nat h)
             (fun x y => pixel im (nearest_src x (im_width im) (Z.to_nat w))
                                  (nearest_src y (im_height im) (Z.to_nat h))))).
Proof.
  intros Hw Hh. unfold resize_nearest.
  destruct (Z.ltb_spec w 1); [lia |]. destruct (Z.ltb_spec h 1); [lia |].
  reflexivity.
Qed.

Lemma pixel_raster (w h : nat) (f : nat -> nat -> Z) (x y : nat) :
  (x < w)%nat -> (y < h)%nat -> pixel (mk_image w h (raster w h f)) x y = f x y.
Proof. intros. unfold pixel; cbn [im_width im_pixels]. by apply nth_raster. Qed.

Lemma resize_round_trip (im : image) (w h : Z) :
  image_wf im ->
  (0 < im_width im)%nat -> (0 < im_height im)%nat ->
  Z.of_nat (im_width im) <= w -> Z.of_nat (im_height im) <= h ->
  (full ← resize_nearest im (w, h);
   resize_nearest full (Z.of_nat (im_width im), Z.of_nat (im_height im)))
  = Ok im.
Proof.
  intros Hwf HW HH Hw Hh. destruct im as [W H px]; cbn [im_width im_height im_pixels] in *.
  unfold image_wf in Hwf; cbn [im_width im_height im_pixels] in Hwf.
  rewrite resize_nearest_ok by lia. cbn [mbind result_bind].
  rewrite resize_nearest_ok by lia. cbn [im_width im_height].
  rewrite !Nat2Z.id. do 2 f_equal.
  etransitivity; [| exact (raster_of_buffer W H px Hwf)].
  apply raster_ext. intros x y Hx Hy.
  rewrite pixel_raster by (apply nearest_src_lt; lia).
  rewrite !nearest_src_round_trip by lia.
  reflexivity.
Qed.

End ResizeFacts.

(** ** The mask post-processor *)

Module PostprocessSpec.
Import Decoder RasterFacts ResizeFacts.

Lemma gtb_zero_is_positive (x : spec_float) :
  F64.gtb x F64.zero = is_positive x.
Proof. by destruct x as [[] | [] | | [] m e]. Qed.

Lemma threshold_cases (logit : spec_float) :
  threshold logit = if is_positive logit then 255 else 0.
Proof.
  unfold threshold. rewrite gtb_zero_is_positive.
  by destruct (is_positive logit).
Qed.

Lemma threshold_binary (logit : spec_float) :
  threshold logit = 0 \/ threshold logit = 255.
Proof. rewrite threshold_cases. destruct (is_positive logit); auto. Qed.

Lemma nd_getitem_first (masks : tensor) (rows cols : nat) :
  nd_shape masks = [1; 1; rows; cols]%nat -> nd_wf masks ->
  nd_getitem masks [0; 0]%nat = Ok (mk_ndarray [rows; cols]%nat (nd_data masks)).
Proof.
  intros Hshape Hwf. unfold nd_wf in Hwf. unfold nd_getitem.
  rewrite Hshape in *.
  cbn [length take drop ravel mbind option_bind]. 
  rewrite !decide_True by lia. cbn [mbind option_bind option_ret mret].
  cbn [Nat.mul Nat.add drop].
  rewrite drop_0, take_ge; [done |]. cbn [shape_size foldr] in *. lia.
Qed.

Lemma postprocess_closed (masks : tensor) (rows cols : nat) (w h : Z) :
  nd_shape masks = [1; 1; rows; cols]%nat -> nd_wf masks ->
  0 < w -> 0 < h ->
  postprocess masks w h
  = Ok (mk_image cols rows (threshold <$> nd_data masks),
        mk_image (Z.to_nat w) (Z.to_nat h)
          (raster (Z.to_nat w) (Z.to_nat h)
             (fun x y =>
                pixel (mk_image cols rows (threshold <$> nd_data masks))
                  (nearest_src x cols (Z.to_nat w))
                  (nearest_src y rows (Z.to_nat h))))).
Proof.
  intros Hshape Hwf Hw Hh. unfold postprocess.
  rewrite (nd_getitem_first masks rows cols Hshape Hwf).
  cbn [mbind result_bind binarize nd_map fromarray nd_shape nd_data].
  by rewrite resize_nearest_ok.
Qed.

(** C6. On a [1, 1, 256, 256] mask output, the native mask holds, cell
    by cell, 255 where the logit is above 0.0 and 0 elsewhere, so only
    the values 0 and 255; the logits 0.0 and -0.001 give 0, and 0.001
    gives 255. *)
Theorem native_mask_thresholds_strictly (masks : tensor) (w h : Z) :
  nd_shape masks = [1; 1; 256; 256]%nat -> nd_wf masks ->
  0 < w -> 0 < h ->
  (exists native full,
      postprocess masks w h = Ok (native, full) /\
      im_pixels native = threshold <$> nd_data masks /\
      Forall (fun v => v = 0 \/ v = 255) (im_pixels native)) /\
  (forall logit, threshold logit = if F64.gtb logit F64.zero then 255 else 0) /\
  (forall logit, threshold logit = 255 <-> is_positive logit = true) /\
  threshold F64.zero = 0 /\
  threshold (f32_of_ratio (-1) 1000) = 0 /\
  threshold (f32_of_ratio 1 1000) = 255.
Proof.
  intros Hshape Hwf Hw Hh. split.
  - eexists _, _. split; [by apply (postprocess_closed masks 256 256) |].
    cbn [im_pixels]. split; [done |].
    apply Forall_fmap, Forall_true. intros logit. apply threshold_binary.
  - split.
    { intros logit. rewrite threshold_cases. by rewrite gtb_zero_is_positive. }
    split.
    { intros logit. rewrite threshold_cases. by destruct (is_positive logit). }
    repeat split; vm_compute; reflexivity.
Qed.

Lemma native_mask_thresholds_strictly_witness :
  exists native full,
    postprocess
      (mk_ndarray [1; 1; 256; 256]%nat
         (f32_of_ratio 1 1000 :: f32_of_ratio (-1) 1000
            :: replicate (256 * 256 - 2) F64.zero)) 640 480
    = Ok (native, full) /\
    im_pixels native
    = threshold <$> (f32_of_ratio 1 1000 :: f32_of_ratio (-1) 1000
                       :: replicate (256 * 256 - 2) F64.zero) /\
    Forall (fun v => v = 0 \/ v = 255) (im_pixels native).
Proof.
  refine (proj1 (native_mask_thresholds_strictly
    (mk_ndarray [1; 1; 256; 256]%nat
       (f32_of_ratio 1 1000 :: f32_of_ratio (-1) 1000
          :: replicate (256 * 256 - 2) F64.zero)) 640 480 _ _ _ _)).
  - reflexivity.
  - unfold nd_wf. cbn [nd_data nd_shape length shape_size foldr].
    rewrite length_replicate. lia.
  - lia.
  - lia.
Defined.

(** C7. For a positive width and height the full-size mask is the
    nearest-neighbour resampling of the native mask, itself the
    thresholded 256x256 raster: every pixel of the full mask is a pixel
    of the native mask, the full mask is [w] by [h] and the native mask
    256 by 256. *)
Theorem full_mask_resamples_native_mask (masks : tensor) (w h : Z) :
  nd_shape masks = [1; 1; 256; 256]%nat -> nd_wf masks ->
  0 < w -> 0 < h ->
  exists native full,
    postprocess masks w h = Ok (native, full) /\
    resize_nearest native (w, h) = Ok full /\
    im_width native = 256%nat /\ im_height native = 256%nat /\
    image_wf native /\
    Z.of_nat (im_width full) = w /\ Z.of_nat (im_height full) = h /\
    image_wf full /\
    forall x y : nat,
      Z.of_nat x < w -> Z.of_nat y < h ->
      pixel full x y
      = pixel native (nearest_src x 256 (Z.to_nat w))
                     (nearest_src y 256 (Z.to_nat h)).
Proof.
  intros Hshape Hwf Hw Hh.
  eexists _, _. split; [by apply (postprocess_closed masks 256 256) |].
  split; [by rewrite resize_nearest_ok |].
  unfold image_wf; cbn [im_width im_height im_pixels].
  repeat split; try lia.
  - rewrite length_fmap. unfold nd_wf in Hwf. rewrite Hwf, Hshape.
    cbn [shape_size foldr]. lia.
  - apply length_raster.
  - intros x y Hx Hy. rewrite pixel_raster by lia. reflexivity.
Qed.

Lemma full_mask_resamples_native_mask_witness :
  exists native full,
    postprocess (np_zeros [1; 1; 256; 256]%nat) 640 480 = Ok (native, full) /\
    resize_nearest native (640, 480) = Ok full /\
    im_width native = 256%nat /\ im_height native = 256%nat /\
    image_wf native /\
    Z.of_nat (im_width full) = 640 /\ Z.of_nat (im_height full) = 480 /\
    image_wf full /\
    forall x y : nat,
      Z.of_nat x < 640 -> Z.of_nat y < 480 ->
      pixel full x y
      = pixel native (nearest_src x 256 (Z.to_nat 640))
                     (nearest_src y 256 (Z.to_nat 480)).
Proof.
  apply (full_mask_resamples_native_mask (np_zeros [1; 1; 256; 256]%nat) 640 480).
  - reflexivity.
  - apply length_replicate.
  - lia.
  - lia.
Defined.

(** C8, as the model has it: when the target is at least 256 pixels
    wide and high, resampling the native mask to the target and back
    to 256x256, both by nearest neighbour, gives the native mask back. *)
Theorem resample_back_restores_native_mask (native : image) (w h : Z) :
  im_width native = 256%nat -> im_height native = 256%nat ->
  image_wf native ->
  256 <= w -> 256 <= h ->
  (full ← resize_nearest native (w, h); resize_nearest full (256, 256))
  = Ok native.
Proof.
  intros HW HH Hwf Hw Hh.
  pose proof (resize_round_trip native w h Hwf) as Hrt.
  rewrite HW, HH in Hrt. apply Hrt; lia.
Qed.

Lemma resample_back_restores_native_mask_witness :
  (full ← resize_nearest (mk_image 256 256 (replicate (256 * 256) 255)) (640, 480);
   resize_nearest full (256, 256))
  = Ok (mk_image 256 256 (replicate (256 * 256) 255)).
Proof.
  apply (resample_back_restores_native_mask
           (mk_image 256 256 (replicate (256 * 256) 255)) 640 480).
  - reflexivity.
  - reflexivity.
  - apply length_replicate.
  - lia.
  - lia.
Defined.

Lemma nth_after_head (i n : nat) (a : Z) :
  (0 < i)%nat -> nth i (a :: replicate n 0) 0 = 0.
Proof.
  intros Hi. destruct i as [| i]; [lia |]. cbn [nth].
  rewrite nth_lookup.
  destruct (decide (i < n)%nat).
  - by rewrite lookup_replicate_2.
  - by rewrite lookup_ge_None_2 by (rewrite length_replicate; lia).
Qed.

(** Counterexample to C8, below 256 pixels: a native mask whose only
    foreground pixel is its first one, resampled to 1x1 and back,
    comes back with that pixel cleared. *)
Lemma resample_back_loses_mask_when_shrinking :
  image_wf (mk_image 256 256 (255 :: replicate (256 * 256 - 1) 0)) /\
  pixel (mk_image 256 256 (255 :: replicate (256 * 256 - 1) 0)) 0 0 = 255 /\
  exists back,
    (full ← resize_nearest
              (mk_image 256 256 (255 :: replicate (256 * 256 - 1) 0)) (1, 1);
     resize_nearest full (256, 256)) = Ok back /\
    pixel back 0 0 = 0.
Proof.
  split.
  { unfold image_wf. cbn [im_pixels im_height im_width length].
    rewrite length_replicate. lia. }
  split; [reflexivity |].
  rewrite resize_nearest_ok by lia. cbn [mbind result_bind].
  rewrite resize_nearest_ok by lia.
  eexists. split; [reflexivity |].
  change (Z.to_nat 256) with 256%nat. change (Z.to_nat 1) with 1%nat.
  rewrite pixel_raster by lia.
  cbn [im_width im_height].
  change (nearest_src 0 1 256) with 0%nat.
  rewrite pixel_raster by lia.
  change (nearest_src 0 256 1) with 128%nat.
  unfold pixel; cbn [im_width im_pixels].
  apply nth_after_head. lia.
Qed.

End PostprocessSpec.

(** ** The decoder invocation adapter *)

Module AdapterSpec.
Import Decoder.

Lemma named_lookup_on_no_output (sess : session) (feeds : gmap string tensor)
    (names : list string) :
  names <> [] -> sess_eval sess feeds = Ok [] ->
  is_ok (sess_run sess (Some names) feeds) = false.
Proof.
  intros Hne Heval. unfold sess_run.
  destruct (mapM (output_position sess) names) as [positions | e] eqn:Hpos;
    [| done].
  cbn [mbind result_bind]. rewrite Heval. cbn [mbind result_bind].
  destruct names as [| n names]; [done |].
  cbn [mapM] in Hpos.
  destruct (output_position sess n) as [i | e]; [| done].
  cbn [mbind result_bind] in Hpos.
  destruct (mapM (output_position sess) names) as [is' | e]; [| done].
  cbn in Hpos. injection Hpos as <-. reflexivity.
Qed.

Lemma resolve_masks_cases (sess : session) (feeds : gmap string tensor) :
  match sess_eval sess feeds with
  | Ok (first :: _) => resolve_masks sess feeds = Ok first
  | Ok [] => is_ok (resolve_masks sess feeds) = false
  | Raise e => resolve_masks sess feeds = Raise e
  end.
Proof.
  unfold resolve_masks.
  change (sess_run sess None feeds) with (sess_eval sess feeds).
  destruct (sess_eval sess feeds) as [[| first rest] | e] eqn:Heval;
    cbn [mbind result_bind].
  - destruct (decide _) as [Hlen | _]; [cbn in Hlen; lia |].
    pose proof (named_lookup_on_no_output sess feeds ["masks"]
                  ltac:(discriminate) Heval) as Hnamed.
    by destruct (sess_run sess (Some ["masks"]) feeds).
  - destruct (decide _) as [_ | Hlen]; [reflexivity | cbn in Hlen; lia].
  - reflexivity.
Qed.

(** C9, as the code has it: the adapter takes positional index 0 of the
    full output list first and asks for the output named ["masks"] only
    when that list is empty.  A graph with at least one output, a single
    one included, resolves to its first output; with no output the
    named request fails as well, and an engine failure is passed on. *)
Theorem resolve_masks_is_positional_first
    (sess : session) (feeds : gmap string tensor) :
  (forall first rest,
      sess_eval sess feeds = Ok (first :: rest) ->
      resolve_masks sess feeds = Ok first) /\
  (sess_eval sess feeds = Ok [] -> is_ok (resolve_masks sess feeds) = false) /\
  (forall e, sess_eval sess feeds = Raise e -> resolve_masks sess feeds = Raise e).
Proof.
  pose proof (resolve_masks_cases sess feeds) as H.
  split; [| split].
  - intros first rest Heval. by rewrite Heval in H.
  - intros Heval. by rewrite Heval in H.
  - intros e Heval. by rewrite Heval in H.
Qed.

(** Scenario D: a decoder with the single output [masks]. *)
Lemma resolve_masks_is_positional_first_witness :
  resolve_masks
    (mk_session ["masks"] (fun _ => Ok [np_zeros [1; 1; 256; 256]%nat])) ∅
  = Ok (np_zeros [1; 1; 256; 256]%nat).
Proof.
  apply (proj1 (resolve_masks_is_positional_first
                  (mk_session ["masks"] (fun _ => Ok [np_zeros [1; 1; 256; 256]%nat]))
                  ∅) (np_zeros [1; 1; 256; 256]%nat) []).
  reflexivity.
Defined.

(** Counterexample to C9: on a graph whose outputs are, in order,
    [iou_predictions] and [masks], the named-first order of the specification
    yields the [masks] tensor, the code the [iou_predictions] tensor. *)
Lemma resolve_masks_is_not_named_first :
  resolve_masks
    (mk_session ["iou_predictions"; "masks"]
       (fun _ => Ok [np_zeros [1; 1]%nat; np_zeros [1; 1; 256; 256]%nat])) ∅
  = Ok (np_zeros [1; 1]%nat) /\
  resolve_masks_named_first
    (mk_session ["iou_predictions"; "masks"]
       (fun _ => Ok [np_zeros [1; 1]%nat; np_zeros [1; 1; 256; 256]%nat])) ∅
  = Ok (np_zeros [1; 1; 256; 256]%nat) /\
  np_zeros [1; 1]%nat <> np_zeros [1; 1; 256; 256]%nat.
Proof.
  split; [reflexivity |]. split; [reflexivity |].
  intros Heq. apply (f_equal nd_shape) in Heq. discriminate.
Qed.

End AdapterSpec.

(** ** The provenance sidecar *)

Module SidecarSpec.
Import Embeddings.

Lemma write_file_stores (W : world) (path : string) (content : file)
    (st st1 : state) :
  write_file W path content st = Ok st1 ->
  files st1 !! path = Some content /\ stdout st1 = stdout st.
Proof.
  unfold write_file. destruct (write_error W path); [done |].
  intros [= <-]. cbn. by rewrite lookup_insert_eq.
Qed.

(** Whatever happens to the sidecars, every embeddable image is
    counted and the run ends normally. *)
Lemma process_images_counts_embeddable (W : world) (args : arguments)
    (images : list image_path) :
  Forall (embeddable W args) images ->
  forall st count, exists st',
    process_images W args images st count = (st', Ok (count + length images)%nat).
Proof.
  induction 1 as [| p rest (img & npy & Hread & Hembed & Hwrite) _ IH];
    intros st count.
  - exists st. cbn. by rewrite Nat.add_0_r.
  - cbn [process_images]. rewrite Hread, Hembed.
    unfold write_file at 1. rewrite Hwrite.
    match goal with
    | |- context [process_images W args rest ?s (S count)] =>
        destruct (IH s (S count)) as [st' Hst']
    end.
    exists st'. rewrite Hst'. cbn [length]. do 2 f_equal. lia.
Qed.

(** C10, as the code has it.  Once the embedding of an image is
    written, a failure of the sidecar only prints a warning: the
    embedding file stays, the image is counted and the loop goes on.
    An unreadable image is a warning as well: it is skipped, not
    counted, and the loop goes on.  An error of the encoder or of the
    embedding write ends the run with that error. *)
Theorem sidecar_failure_is_a_warning (W : world) (args : arguments)
    (p : image_path) (rest : list image_path) (st : state) (count : nat) :
  (forall img npy st1 e,
      imread W (ip_path p) = Some img -> embed W img = Ok npy ->
      write_file W (out_path (arg_out args) (ip_stem p) ".npy") (NpyFile npy) st
        = Ok st1 ->
      write_sidecar W args p img st1 = Raise e ->
      files st1 !! out_path (arg_out args) (ip_stem p) ".npy" = Some (NpyFile npy) /\
      exists st2,
        files st2 = files st1 /\
        process_images W args (p :: rest) st count
        = process_images W args rest st2 (S count)) /\
  (imread W (ip_path p) = None ->
   exists st2,
     files st2 = files st /\
     process_images W args (p :: rest) st count
     = process_images W args rest st2 count) /\
  (forall img e,
      imread W (ip_path p) = Some img -> embed W img = Raise e ->
      process_images W args (p :: rest) st count = (st, Raise e)) /\
  (forall img npy e,
      imread W (ip_path p) = Some img -> embed W img = Ok npy ->
      write_file W (out_path (arg_out args) (ip_stem p) ".npy") (NpyFile npy) st
        = Raise e ->
      process_images W args (p :: rest) st count = (st, Raise e)) /\
  (Forall (embeddable W args) (p :: rest) ->
   exists st', process_images W args (p :: rest) st count
               = (st', Ok (count + length (p :: rest))%nat)).
Proof.
  split; [| split; [| split; [| split]]].
  - intros img npy st1 e Hread Hembed Hsave Hside.
    split; [by eapply write_file_stores |].
    cbn [process_images]. rewrite Hread, Hembed, Hsave, Hside.
    eexists. split; [| reflexivity]. reflexivity.
  - intros Hread. cbn [process_images]. rewrite Hread.
    eexists. split; [| reflexivity]. reflexivity.
  - intros img e Hread Hembed. cbn [process_images]. by rewrite Hread, Hembed.
  - intros img npy e Hread Hembed Hsave. cbn [process_images].
    by rewrite Hread, Hembed, Hsave.
  - intros Hall. by apply process_images_counts_embeddable.
Qed.

Lemma sidecar_failure_is_a_warning_witness :
  exists st2,
    files st2 !! "out/a.npy" = Some (NpyFile (np_zeros [1; 256; 64; 64]%nat)) /\
    process_images Demo.the_world Demo.the_args
      [Demo.a_png; Demo.bad_png] Demo.empty_state 0
    = process_images Demo.the_world Demo.the_args
        [Demo.bad_png] st2 1.
Proof.
  destruct (proj1 (sidecar_failure_is_a_warning Demo.the_world Demo.the_args
              Demo.a_png [Demo.bad_png] Demo.empty_state 0%nat)
              (mk_rgb_image 480 640 []) (np_zeros [1; 256; 64; 64]%nat)
              (mk_state (<["out/a.npy" := NpyFile (np_zeros [1; 256; 64; 64]%nat)]> ∅) [])
              (OSError "Read-only file system")
              eq_refl eq_refl eq_refl eq_refl)
    as [Hfile (st2 & Hfiles & Hrun)].
  exists st2. split; [by rewrite Hfiles | exact Hrun].
Defined.

(** Counterexample to C10, in the decoding stage: an image that cannot be
    read does not end the run with an error; it is skipped with a
    warning, and the run returns normally with the images after it. *)
Lemma unreadable_image_does_not_abort :
  process_images Demo.the_world Demo.the_args
    [Demo.bad_png] Demo.empty_state 0
  = (print "[WARN] Skipping unreadable image: img/bad.png" Demo.empty_state,
     Ok 0%nat) /\
  snd (main Demo.the_world Demo.the_args
         [Demo.bad_png; Demo.a_png] Demo.empty_state)
  = Ok 1%nat.
Proof. split; reflexivity. Qed.

End SidecarSpec.

Module RunFacts.
Import Embeddings Run.

Lemma last_char_None (t : string) : last_char t = None -> t = "".
Proof. destruct t as [| a t]; [done |]. cbn. by destruct (last_char t). Qed.

Lemma last_char_app (s t : string) :
  t <> "" -> last_char (s +:+ t) = last_char t.
Proof.
  intros Ht. induction s as [| a s IH]; [done |].
  change (String a s +:+ t) with (String a (s +:+ t)).
  cbn [last_char]. rewrite IH.
  destruct (last_char t) eqn:Hl; [done |].
  by apply last_char_None in Hl.
Qed.

Lemma out_path_last_char (out stem suffix : string) :
  suffix <> "" -> last_char (out_path out stem suffix) = last_char suffix.
Proof.
  intros Hs. unfold out_path.
  rewrite last_char_app, last_char_app, last_char_app; try done.
  all: destruct stem; [by destruct suffix | done].
Qed.

(** A sidecar path is never an embedding path. *)
Lemma npy_path_not_json_path (args : arguments) (p q : image_path) :
  npy_path args p <> json_path args q.
Proof.
  intros Heq. apply (f_equal last_char) in Heq.
  unfold npy_path, json_path in Heq.
  rewrite !out_path_last_char in Heq by done. discriminate.
Qed.

Lemma string_length_app (s t : string) :
  String.length (s +:+ t) = (String.length s + String.length t)%nat.
Proof.
  induction s as [| a s IH]; [done |].
  change (String a s +:+ t) with (String a (s +:+ t)).
  cbn [String.length]. by rewrite IH.
Qed.

Lemma string_app_cancel_r (s s' t : string) :
  s +:+ t = s' +:+ t -> s = s'.
Proof.
  revert s'. induction s as [| a s IH]; intros [| a' s'] Heq.
  - done.
  - exfalso. apply (f_equal String.length) in Heq.
    rewrite !string_length_app in Heq. cbn in Heq. lia.
  - exfalso. apply (f_equal String.length) in Heq.
    rewrite !string_length_app in Heq. cbn in Heq. lia.
  - change (String a (s +:+ t) = String a' (s' +:+ t)) in Heq.
    injection Heq as -> Heq. f_equal. by apply IH.
Qed.

Lemma npy_path_inj (args : arguments) (p q : image_path) :
  npy_path args p = npy_path args q -> ip_stem p = ip_stem q.
Proof.
  unfold npy_path, out_path. intros Heq.
  apply (inj (String.app _)) in Heq. apply (inj (String.app _)) in Heq.
  by apply string_app_cancel_r in Heq.
Qed.

Lemma files_print (line : string) (st : state) : files (print line st) = files st.
Proof. done. Qed.

Lemma write_file_files (W : world) (path : string) (content : file)
    (st st1 : state) :
  write_file W path content st = Ok st1 ->
  files st1 = <[path := content]> (files st).
Proof.
  unfold write_file. destruct (write_error W path); [done |]. by intros [= <-].
Qed.

Lemma write_sidecar_files (W : world) (args : arguments) (p : image_path)
    (img : rgb_image) (st st1 : state) :
  write_sidecar W args p img st = Ok st1 ->
  exists meta, files st1 = <[json_path args p := JsonFile meta]> (files st).
Proof.
  unfold write_sidecar. destruct (read_bytes W (ip_path p)) as [b | e]; [| done].
  cbn [mbind result_bind]. intros H%write_file_files. eauto.
Qed.

(** One iteration: either nothing is written, or the embedding, or the
    embedding and then the sidecar. *)
Lemma step_files (W : world) (args : arguments) (p : image_path)
    (rest : list image_path) (st : state) (count : nat) :
  (exists st1 c1,
      process_images W args (p :: rest) st count
      = process_images W args rest st1 c1 /\
      (files st1 = files st \/
       (exists npy, files st1 = <[npy_path args p := NpyFile npy]> (files st)) \/
       (exists npy meta,
           files st1 = <[json_path args p := JsonFile meta]>
                         (<[npy_path args p := NpyFile npy]> (files st))))) \/
  (exists e, process_images W args (p :: rest) st count = (st, Raise e)).
Proof.
  cbn [process_images].
  destruct (imread W (ip_path p)) as [img |].
  2: { left. eexists _, _. split; [reflexivity |]. by left. }
  destruct (embed W img) as [npy | e]; [| right; eauto].
  destruct (write_file W _ (NpyFile npy) st) as [st1 | e] eqn:Hsave;
    [| right; eauto].
  apply write_file_files in Hsave.
  left. eexists _, _. split; [reflexivity |]. rewrite files_print.
  destruct (write_sidecar W args p img st1) as [st2 | e] eqn:Hside.
  - apply write_sidecar_files in Hside as [meta Hside].
    right; right. exists npy, meta. by rewrite Hside, Hsave.
  - right; left. exists npy. by rewrite files_print.
Qed.

Lemma process_images_app (W : world) (args : arguments)
    (l1 l2 : list image_path) :
  forall st count,
    process_images W args (l1 ++ l2) st count
    = match process_images W args l1 st count with
      | (st1, Ok c1) => process_images W args l2 st1 c1
      | (st1, Raise e) => (st1, Raise e)
      end.
Proof.
  induction l1 as [| p l1 IH]; intros st count; [done |].
  cbn [app process_images].
  destruct (imread W (ip_path p)) as [img |]; [| apply IH].
  destruct (embed W img) as [npy | e]; [| done].
  destruct (write_file W _ (NpyFile npy) st) as [st1 | e]; [| done].
  apply IH.
Qed.

(** Paths other than the outputs of the listed images keep their content. *)
Lemma process_images_frame (W : world) (args : arguments)
    (images : list image_path) (path : string) :
  (forall p, p ∈ images -> path <> npy_path args p /\ path <> json_path args p) ->
  forall st count,
    files (fst (process_images W args images st count)) !! path = files st !! path.
Proof.
  induction images as [| p rest IH]; intros Hout st count; [done |].
  destruct (Hout p ltac:(left)) as [Hnpy Hjson].
  assert (Hrest : forall q, q ∈ rest ->
                    path <> npy_path args q /\ path <> json_path args q)
    by (intros q Hq; apply Hout; by right).
  destruct (step_files W args p rest st count)
    as [(st1 & c1 & -> & Hfiles) | (e & ->)]; [| done].
  rewrite (IH Hrest).
  destruct Hfiles as [-> | [(npy & ->) | (npy & meta & ->)]];
    by rewrite ?lookup_insert_ne.
Qed.

Lemma process_images_keeps (W : world) (args : arguments)
    (images : list image_path) (path : string) :
  forall st count,
    is_Some (files st !! path) ->
    is_Some (files (fst (process_images W args images st count)) !! path).
Proof.
  induction images as [| p rest IH]; intros st count Hsome; [done |].
  destruct (step_files W args p rest st count)
    as [(st1 & c1 & -> & Hfiles) | (e & ->)]; [| done].
  apply IH.
  destruct Hfiles as [-> | [(npy & ->) | (npy & meta & ->)]];
    rewrite ?lookup_insert_is_Some'; auto.
Qed.

(** Unreadable images write nothing at all. *)
Lemma process_images_frame_readable (W : world) (args : arguments)
    (images : list image_path) (path : string) :
  Forall (fun q => readable W q = false \/
                   (path <> npy_path args q /\ path <> json_path args q)) images ->
  forall st count,
    files (fst (process_images W args images st count)) !! path = files st !! path.
Proof.
  induction 1 as [| q rest Hq _ IH]; intros st count; [done |].
  destruct Hq as [Hno | [Hnpy Hjson]].
  - unfold readable in Hno. cbn [process_images].
    destruct (imread W (ip_path q)); [done |]. by rewrite IH.
  - destruct (step_files W args q rest st count)
      as [(st1 & c1 & -> & Hfiles) | (e & ->)]; [| done].
    rewrite IH.
    destruct Hfiles as [-> | [(npy & ->) | (npy & meta & ->)]];
      by rewrite ?lookup_insert_ne.
Qed.

Lemma passes_run (W : world) (args : arguments) (images : list image_path) :
  Forall (passes W args) images ->
  forall st count, exists st1 c1,
    process_images W args images st count = (st1, Ok c1).
Proof.
  induction 1 as [| p rest Hp _ IH]; intros st count; [by eexists _, _ |].
  destruct Hp as [Hno | (img & npy & Hread & Hembed & Hwrite)].
  - unfold readable in Hno. cbn [process_images].
    destruct (imread W (ip_path p)); [done |]. apply IH.
  - cbn [process_images]. rewrite Hread, Hembed.
    unfold write_file at 1. rewrite Hwrite. apply IH.
Qed.

(** Right after an image is embedded its [.npy] file holds the
    embedding, with or without the sidecar. *)
Lemma embedded_step (W : world) (args : arguments) (p : image_path)
    (rest : list image_path) (st : state) (count : nat)
    (img : rgb_image) (npy : ndarray spec_float) :
  imread W (ip_path p) = Some img -> embed W img = Ok npy ->
  write_error W (npy_path args p) = None ->
  exists st1,
    process_images W args (p :: rest) st count
    = process_images W args rest st1 (S count) /\
    files st1 !! npy_path args p = Some (NpyFile npy) /\
    (forall path, path <> npy_path args p -> path <> json_path args p ->
                  files st1 !! path = files st !! path) /\
    (forall st2, write_sidecar W args p img
                   (mk_state (<[npy_path args p := NpyFile npy]> (files st)) (stdout st))
                 = Ok st2 ->
                 files st1 !! json_path args p = files st2 !! json_path args p /\
                 is_Some (files st2 !! json_path args p)).
Proof.
  intros Hread Hembed Hwrite. cbn [process_images]. rewrite Hread, Hembed.
  fold (npy_path args p). unfold write_file at 1. rewrite Hwrite.
  eexists. split; [reflexivity |]. rewrite files_print.
  destruct (write_sidecar W args p img _) as [st2 | e] eqn:Hside.
  - apply write_sidecar_files in Hside as [meta Hside]. rewrite Hside. cbn [files].
    assert (Hne : json_path args p <> npy_path args p)
      by (intros Heq; by apply (npy_path_not_json_path args p p)).
    split; [by rewrite lookup_insert_ne, lookup_insert_eq |].
    split; [intros path H1 H2; by rewrite !lookup_insert_ne |].
    intros st2' [= <-]. rewrite Hside, !lookup_insert_eq. split; [done | by eexists].
  - rewrite files_print. cbn [files].
    split; [apply lookup_insert_eq |].
    split; [intros path H1 H2; by rewrite lookup_insert_ne |].
    intros st2 [=].
Qed.

End RunFacts.

Module RunSpec.
Import Embeddings Run RunFacts.

(** X1. A run over a list of images is the run over its first part
    followed, from the state and count reached, by the run over the rest;
    an exception in the first part ends the run there. *)
Theorem process_images_runs_in_sequence (W : world) (args : arguments)
    (l1 l2 : list image_path) (st : state) (count : nat) :
  process_images W args (l1 ++ l2) st count
  = match process_images W args l1 st count with
    | (st1, Ok c1) => process_images W args l2 st1 c1
    | (st1, Raise e) => (st1, Raise e)
    end.
Proof. apply process_images_app. Qed.

(** X2. A run writes nothing but the [.npy] and [.json] files of the
    images it is given: every other path keeps its content, also when
    the run ends with an exception. *)
Theorem process_images_touches_only_its_outputs (W : world) (args : arguments)
    (images : list image_path) (st : state) (count : nat) (path : string) :
  (forall p, p ∈ images -> path <> npy_path args p /\ path <> json_path args p) ->
  files (fst (process_images W args images st count)) !! path = files st !! path.
Proof. intros Hout. by apply process_images_frame. Qed.

Lemma process_images_touches_only_its_outputs_witness :
  files (fst (process_images Demo.the_world Demo.the_args
                [Demo.a_png; Demo.bad_png]
                (mk_state {["img/a.png" := JsonFile (mk_metadata "" 0 0 "" "" "")]} [])
                0)) !! "img/a.png"
  = Some (JsonFile (mk_metadata "" 0 0 "" "" "")).
Proof.
  rewrite (process_images_touches_only_its_outputs Demo.the_world Demo.the_args
             [Demo.a_png; Demo.bad_png] _ 0 "img/a.png").
  - apply lookup_singleton_eq.
  - intros p Hp. apply list_elem_of_In in Hp.
    destruct Hp as [<- | [<- | []]]; split; discriminate.
Defined.

(** X3. A run never removes a file: a path that holds a file before the
    run holds one after it, whether the run ends normally or not. *)
Theorem process_images_never_removes_a_file (W : world) (args : arguments)
    (images : list image_path) (st : state) (count : nat) (path : string) :
  is_Some (files st !! path) ->
  is_Some (files (fst (process_images W args images st count)) !! path).
Proof. intros Hsome. by apply process_images_keeps. Qed.

Lemma process_images_never_removes_a_file_witness :
  is_Some
    (files (fst (process_images Demo.the_world Demo.the_args
                   [Demo.a_png; Demo.bad_png]
                   (mk_state {["out/a.npy" := JsonFile (mk_metadata "" 0 0 "" "" "")]} [])
                   0)) !! "out/a.npy").
Proof.
  apply (process_images_never_removes_a_file Demo.the_world Demo.the_args
           [Demo.a_png; Demo.bad_png] _ 0 "out/a.npy").
  cbn [files]. rewrite lookup_singleton_eq. by eexists.
Defined.

Lemma passes_step (W : world) (args : arguments) (p : image_path)
    (rest : list image_path) (st : state) (count : nat) :
  passes W args p ->
  exists st1,
    process_images W args (p :: rest) st count
    = process_images W args rest st1
        (if readable W p then S count else count).
Proof.
  intros [Hno | (img & npy & Hread & Hembed & Hwrite)].
  - unfold readable in *. cbn [process_images].
    destruct (imread W (ip_path p)); [done |]. eauto.
  - unfold readable. cbn [process_images]. rewrite Hread, Hembed.
    unfold write_file at 1. rewrite Hwrite. eauto.
Qed.

(** X4. When every image is either unreadable or gets its embedding
    written, the run ends normally and the count it reports is the
    number of readable images: unreadable ones are not counted, and a
    failing sidecar takes nothing off the count. *)
Theorem process_images_counts_readable_images (W : world) (args : arguments)
    (images : list image_path) (st : state) (count : nat) :
  Forall (passes W args) images ->
  snd (process_images W args images st count)
  = Ok (count + length (filter (fun p => readable W p = true) images))%nat.
Proof.
  intros Hall. revert st count.
  induction Hall as [| p rest Hp _ IH]; intros st count.
  - cbn. by rewrite Nat.add_0_r.
  - destruct (passes_step W args p rest st count Hp) as [st1 ->].
    rewrite IH, filter_cons.
    destruct (readable W p); [rewrite decide_True by done | rewrite decide_False by done];
      cbn [length]; f_equal; lia.
Qed.

Lemma process_images_counts_readable_images_witness :
  snd (process_images Demo.the_world Demo.the_args
         [Demo.bad_png; Demo.a_png; Demo.bad_png] Demo.empty_state 0)
  = Ok 1%nat.
Proof.
  apply (process_images_counts_readable_images Demo.the_world Demo.the_args
           [Demo.bad_png; Demo.a_png; Demo.bad_png] Demo.empty_state 0).
  constructor; [left; reflexivity |].
  constructor; [| constructor; [left; reflexivity | constructor]].
  right. exists (mk_rgb_image 480 640 []), (np_zeros [1; 256; 64; 64]%nat).
  repeat split.
Defined.

(** X5. Embedding files are keyed by the stem alone, and the last
    writer wins: after a run that gets through all its images, the
    [.npy] file of an embedded image holds that image's embedding as
    long as no readable image after it has the same stem, whatever was
    written under that stem before (so [a.png] followed by [a.jpg]
    leaves one file, holding the embedding of [a.jpg]). *)
Theorem last_image_of_a_stem_owns_the_embedding (W : world) (args : arguments)
    (before after : list image_path) (p : image_path)
    (img : rgb_image) (npy : ndarray spec_float) (st : state) (count : nat) :
  Forall (passes W args) before ->
  imread W (ip_path p) = Some img -> embed W img = Ok npy ->
  write_error W (npy_path args p) = None ->
  Forall (fun q => readable W q = false \/ ip_stem q <> ip_stem p) after ->
  files (fst (process_images W args (before ++ p :: after) st count))
    !! npy_path args p
  = Some (NpyFile npy).
Proof.
  intros Hbefore Hread Hembed Hwrite Hafter.
  rewrite process_images_app.
  destruct (passes_run W args before Hbefore st count) as (st1 & c1 & ->).
  destruct (embedded_step W args p after st1 c1 img npy Hread Hembed Hwrite)
    as (st2 & -> & Hfile & _).
  rewrite process_images_frame_readable; [done |].
  eapply Forall_impl; [exact Hafter |].
  intros q [Hno | Hstem]; [by left | right]. split.
  - intros Heq. by apply npy_path_inj in Heq.
  - apply npy_path_not_json_path.
Qed.

Lemma last_image_of_a_stem_owns_the_embedding_witness :
  files (fst (process_images
                (mk_world
                   (fun path => Some (mk_rgb_image 1 (String.length path) []))
                   (fun img => Ok (mk_ndarray [rgb_width img] []))
                   (fun _ => Ok "") (fun _ => "") (fun _ => None))
                Demo.the_args
                ([mk_image_path "img/a.png" "a.png" "a"]
                   ++ mk_image_path "img/a.jpeg" "a.jpeg" "a" :: [])
                Demo.empty_state 0))
    !! "out/a.npy"
  = Some (NpyFile (mk_ndarray [10%nat] [])).
Proof.
  apply (last_image_of_a_stem_owns_the_embedding _ Demo.the_args
           [mk_image_path "img/a.png" "a.png" "a"] []
           (mk_image_path "img/a.jpeg" "a.jpeg" "a")
           (mk_rgb_image 1 10 [])).
  - constructor; [| constructor]. right.
    exists (mk_rgb_image 1 9 []), (mk_ndarray [9%nat] []). repeat split.
  - reflexivity.
  - reflexivity.
  - reflexivity.
  - constructor.
Defined.



(** X7. When the sidecar of an embedded image is written, both files are
    there afterwards: the sidecar never overwrites the embedding, and its
    hash is the hash of the bytes read from the image file, its size the
    size of the decoded image. *)
Theorem sidecar_sits_beside_the_embedding (W : world) (args : arguments)
    (p : image_path) (rest : list image_path) (st : state) (count : nat)
    (img : rgb_image) (npy : ndarray spec_float) (img_bytes : string) :
  imread W (ip_path p) = Some img -> embed W img = Ok npy ->
  write_error W (npy_path args p) = None ->
  read_bytes W (ip_path p) = Ok img_bytes ->
  write_error W (json_path args p) = None ->
  exists st1,
    process_images W args (p :: rest) st count
    = process_images W args rest st1 (S count) /\
    files st1 !! npy_path args p = Some (NpyFile npy) /\
    files st1 !! json_path args p
    = Some (JsonFile
              (mk_metadata (ip_name p) (Z.of_nat (rgb_width img))
                 (Z.of_nat (rgb_height img)) (sha256_hexdigest W img_bytes)
                 (arg_model_type args) (arg_checkpoint_name args))).
Proof.
  intros Hread Hembed Hwrite Hbytes Hjson.
  destruct (embedded_step W args p rest st count img npy Hread Hembed Hwrite)
    as (st1 & Hrun & Hfile & _ & Hside).
  exists st1. split; [done |]. split; [done |].
  assert (Hs : write_sidecar W args p img
                 (mk_state (<[npy_path args p := NpyFile npy]> (files st)) (stdout st))
               = Ok (mk_state
                       (<[json_path args p :=
                            JsonFile
                              (mk_metadata (ip_name p) (Z.of_nat (rgb_width img))
                                 (Z.of_nat (rgb_height img))
                                 (sha256_hexdigest W img_bytes)
                                 (arg_model_type args) (arg_checkpoint_name args))]>
                          (<[npy_path args p := NpyFile npy]> (files st)))
                       (stdout st))).
  { unfold write_sidecar. rewrite Hbytes. cbn [mbind result_bind].
    fold (json_path args p). unfold write_file. by rewrite Hjson. }
  destruct (Hside _ Hs) as [-> _].
  cbn [files]. apply lookup_insert_eq.
Qed.

Lemma sidecar_sits_beside_the_embedding_witness :
  exists st1,
    process_images Demo.the_world Demo.the_args
      [mk_image_path "img/b.png" "b.png" "b"] Demo.empty_state 0
    = process_images Demo.the_world Demo.the_args [] st1 1 /\
    files st1 !! "out/b.npy" = Some (NpyFile (np_zeros [1; 256; 64; 64]%nat)) /\
    files st1 !! "out/b.json"
    = Some (JsonFile
              (mk_metadata "b.png" 640 480
                 "e3b0c44298fc1c149afbf4c8996fb92427ae41e4649b934ca495991b7852b855"
                 "vit_b" "sam_vit_b.pth")).
Proof.
  apply (sidecar_sits_beside_the_embedding Demo.the_world Demo.the_args
           (mk_image_path "img/b.png" "b.png" "b") [] Demo.empty_state 0
           (mk_rgb_image 480 640 []) (np_zeros [1; 256; 64; 64]%nat) "");
    reflexivity.
Defined.

End RunSpec.

Module ClickFacts.
Import Decoder ClickText.

Lemma split_first_none (c : ascii) (s : string) :
  count_char c s = 0%nat -> split_first c s = None.
Proof.
  induction s as [| a s IH]; [done |]. cbn [count_char split_first].
  destruct (decide (a = c)); [done |]. intros H. by rewrite IH.
Qed.

Lemma split_first_app (c : ascii) (s t : string) :
  count_char c s = 0%nat -> split_first c (s +:+ String c t) = Some (s, t).
Proof.
  induction s as [| a s IH]; intros Hs.
  - change ("" +:+ String c t) with (String c t). cbn [split_first].
    by rewrite decide_True.
  - change (String a s +:+ String c t) with (String a (s +:+ String c t)).
    cbn [count_char] in Hs. cbn [split_first].
    destruct (decide (a = c)); [done |]. by rewrite IH.
Qed.

Lemma split_all_nonempty (c : ascii) (s : string) : split_all c s <> [].
Proof.
  destruct s as [| a s]; [done |]. cbn [split_all].
  destruct (decide (a = c)); [done |]. by destruct (split_all c s).
Qed.

Lemma split_all_none (c : ascii) (s : string) :
  count_char c s = 0%nat -> split_all c s = [s].
Proof.
  induction s as [| a s IH]; [done |]. cbn [count_char split_all].
  destruct (decide (a = c)); [done |]. intros H. by rewrite IH.
Qed.

Lemma split_all_app (c : ascii) (s t : string) :
  count_char c s = 0%nat ->
  split_all c (s +:+ String c t) = s :: split_all c t.
Proof.
  induction s as [| a s IH]; intros Hs.
  - change ("" +:+ String c t) with (String c t). cbn [split_all].
    by rewrite decide_True.
  - change (String a s +:+ String c t) with (String a (s +:+ String c t)).
    cbn [count_char] in Hs. cbn [split_all].
    destruct (decide (a = c)); [done |]. by rewrite IH.
Qed.

(** [len(s.split(c)) = s.count(c) + 1] *)
Lemma length_split_all (c : ascii) (s : string) :
  length (split_all c s) = S (count_char c s).
Proof.
  induction s as [| a s IH]; [done |]. cbn [count_char split_all].
  destruct (decide (a = c)); [cbn; by rewrite IH |].
  pose proof (split_all_nonempty c s).
  destruct (split_all c s); [done |]. cbn in *. lia.
Qed.

Lemma string_app_assoc (s t u : string) : (s +:+ t) +:+ u = s +:+ (t +:+ u).
Proof.
  induction s as [| a s IH]; [done |].
  change (String a ((s +:+ t) +:+ u) = String a (s +:+ (t +:+ u))). by rewrite IH.
Qed.

Lemma count_char_app (c : ascii) (s t : string) :
  count_char c (s +:+ t) = (count_char c s + count_char c t)%nat.
Proof.
  induction s as [| a s IH]; [done |].
  change (String a s +:+ t) with (String a (s +:+ t)). cbn [count_char].
  destruct (decide (a = c)); rewrite IH; lia.
Qed.

End ClickFacts.

Module ClickSpec.
Import Decoder ClickText ClickFacts.

Section WithParsers.

Variable int_of_str : string -> result Z.
Variable float_of_str : string -> result spec_float.

(** X8. [parse_click] reads the format [x,y:label] and [x,y]: for
    coordinate texts free of commas and colons, the label is what [int]
    makes of everything after the first colon, read before the
    coordinates, and is 1 when there is no colon; the coordinates are
    what [float] makes of the two texts. *)
Theorem parse_click_reads_the_click_format (x_str y_str lbl : string) :
  count_char ","%char x_str = 0%nat -> count_char ":"%char x_str = 0%nat ->
  count_char ","%char y_str = 0%nat -> count_char ":"%char y_str = 0%nat ->
  parse_click int_of_str float_of_str (x_str +:+ "," +:+ y_str +:+ ":" +:+ lbl)
  = (label ← int_of_str lbl;
     x ← float_of_str x_str;
     y ← float_of_str y_str;
     Ok (x, y, label)) /\
  parse_click int_of_str float_of_str (x_str +:+ "," +:+ y_str)
  = (x ← float_of_str x_str;
     y ← float_of_str y_str;
     Ok (x, y, 1)).
Proof.
  intros Hxc Hxk Hyc Hyk. unfold parse_click. split.
  - assert (Hsplit : split_first ":"%char (x_str +:+ "," +:+ y_str +:+ ":" +:+ lbl)
                     = Some (x_str +:+ "," +:+ y_str, lbl)).
    { replace (x_str +:+ "," +:+ y_str +:+ ":" +:+ lbl)
        with ((x_str +:+ "," +:+ y_str) +:+ String ":"%char lbl).
      - apply split_first_app. rewrite !count_char_app, Hxk, Hyk. reflexivity.
      - by rewrite string_app_assoc. }
    rewrite Hsplit.
    destruct (int_of_str lbl) as [n | e]; [| done]. cbn [mbind result_bind].
    change (x_str +:+ "," +:+ y_str) with (x_str +:+ String ","%char y_str).
    rewrite split_all_app, split_all_none by done. reflexivity.
  - rewrite split_first_none by (rewrite !count_char_app, Hxk, Hyk; reflexivity).
    cbn [mbind result_bind].
    change (x_str +:+ "," +:+ y_str) with (x_str +:+ String ","%char y_str).
    rewrite split_all_app, split_all_none by done. reflexivity.
Qed.

(** X9. A click whose coordinate part, the text before the first colon,
    does not hold exactly one comma is a [ValueError], whatever [float]
    would make of its pieces; with a colon this is so once the label is
    read. *)
Theorem parse_click_wants_two_coordinates (s : string) :
  match split_first ":"%char s with
  | Some (xy, lbl) => is_ok (int_of_str lbl) = true /\ count_char ","%char xy <> 1%nat
  | None => count_char ","%char s <> 1%nat
  end ->
  parse_click int_of_str float_of_str s = Raise ValueError.
Proof.
  unfold parse_click.
  destruct (split_first ":"%char s) as [[xy lbl] |].
  - intros [Hlbl Hcount]. destruct (int_of_str lbl) as [n | e]; [| done].
    cbn [mbind result_bind].
    pose proof (length_split_all ","%char xy) as Hlen.
    destruct (split_all ","%char xy) as [| a [| b [| c l]]]; try done.
    cbn in Hlen. lia.
  - intros Hcount. cbn [mbind result_bind].
    pose proof (length_split_all ","%char s) as Hlen.
    destruct (split_all ","%char s) as [| a [| b [| c l]]]; try done.
    cbn in Hlen. lia.
Qed.

End WithParsers.

(** Parsers for the decimal texts of the examples. *)
Lemma parse_click_reads_the_click_format_witness :
  parse_click
    (fun s => if decide (s = "0") then Ok 0 else Raise ValueError)
    (fun s => if decide (s = "320") then Ok (F64.of_Z 320)
              else if decide (s = "240") then Ok (F64.of_Z 240)
              else Raise ValueError)
    "320,240:0"
  = Ok (F64.of_Z 320, F64.of_Z 240, 0) /\
  parse_click
    (fun s => if decide (s = "0") then Ok 0 else Raise ValueError)
    (fun s => if decide (s = "320") then Ok (F64.of_Z 320)
              else if decide (s = "240") then Ok (F64.of_Z 240)
              else Raise ValueError)
    "320,240"
  = Ok (F64.of_Z 320, F64.of_Z 240, 1).
Proof.
  exact (parse_click_reads_the_click_format
           (fun s => if decide (s = "0") then Ok 0 else Raise ValueError)
           (fun s => if decide (s = "320") then Ok (F64.of_Z 320)
                     else if decide (s = "240") then Ok (F64.of_Z 240)
                     else Raise ValueError)
           "320" "240" "0" eq_refl eq_refl eq_refl eq_refl).
Defined.

Lemma parse_click_wants_two_coordinates_witness :
  parse_click (fun _ => Ok 1) (fun _ => Ok F64.zero) "1,2,3:1" = Raise ValueError.
Proof.
  apply (parse_click_wants_two_coordinates (fun _ => Ok 1) (fun _ => Ok F64.zero)
           "1,2,3:1").
  split; [reflexivity | discriminate].
Defined.

End ClickSpec.

Module PipelineFacts.
Import Decoder NormalizerFacts RasterFacts ResizeFacts PostprocessSpec.

Lemma mapM_first_failure {A B} (f : A -> result B) (done : list A) (bad : A)
    (rest : list A) (e : py_error) :
  Forall (fun x => is_ok (f x) = true) done -> f bad = Raise e ->
  mapM f (done ++ bad :: rest) = Raise e.
Proof.
  intros Hdone Hbad. induction Hdone as [| x done Hx _ IH].
  - cbn. by rewrite Hbad.
  - cbn [app mapM]. destruct (f x) as [y | e']; [| done].
    cbn [mbind result_bind]. cbn [mapM] in IH. by rewrite IH.
Qed.

Lemma Forall_raster (P : Z -> Prop) (w h : nat) (f : nat -> nat -> Z) :
  (forall x y, P (f x y)) -> Forall P (raster w h f).
Proof.
  intros Hf. unfold raster. generalize (seq 0 h) as ys.
  induction ys as [| y ys IH]; [constructor |].
  cbn [flat_map]. apply Forall_app. split; [| done].
  apply Forall_forall. intros v Hv. apply list_elem_of_In, in_map_iff in Hv.
  destruct Hv as (x & <- & _). apply Hf.
Qed.

Lemma nearest_src_same (x n : nat) : (0 < n)%nat -> nearest_src x n n = x.
Proof.
  intros Hn. unfold nearest_src. symmetry.
  apply Nat.div_unique with (r := n); lia.
Qed.

(** Resizing to the size the raster already has changes nothing. *)
Lemma resize_nearest_same (im : image) :
  image_wf im -> (0 < im_width im)%nat -> (0 < im_height im)%nat ->
  resize_nearest im (Z.of_nat (im_width im), Z.of_nat (im_height im)) = Ok im.
Proof.
  intros Hwf HW HH. destruct im as [W H px]; cbn [im_width im_height im_pixels] in *.
  unfold image_wf in Hwf; cbn [im_width im_height im_pixels] in Hwf.
  rewrite resize_nearest_ok by lia. cbn [im_width im_height].
  rewrite !Nat2Z.id. do 2 f_equal.
  etransitivity; [| exact (raster_of_buffer W H px Hwf)].
  apply raster_ext. intros x y Hx Hy.
  by rewrite !nearest_src_same.
Qed.

Section WithParsers.

Variable int_of_str : string -> result Z.
Variable float_of_str : string -> result spec_float.

Lemma prepare_points_parsed (args : arguments) (clicks : list click) :
  mapM (parse_click int_of_str float_of_str) (arg_click args) = Ok clicks ->
  prepare_points int_of_str float_of_str args
  = normalize clicks (arg_image_width args) (arg_image_height args).
Proof.
  intros Hparse. unfold prepare_points, normalize.
  destruct (sam_scale _ _); [| done]. cbn [mbind result_bind].
  by rewrite Hparse.
Qed.

(** Up to the post-processing, [main] only needs a longer side other
    than zero. *)
Lemma main_reaches_postprocess (sess : session) (fs : gmap string file)
    (args : arguments) (a : npy_array) (clicks : list click)
    (masks : tensor) (others : list tensor) :
  fs !! arg_embedding args = Some (NpyFile a) ->
  mapM (parse_click int_of_str float_of_str) (arg_click args) = Ok clicks ->
  clicks <> [] -> Forall label_fits clicks ->
  Z.max (arg_image_width args) (arg_image_height args) <> 0 ->
  int_fits_float (Z.max (arg_image_width args) (arg_image_height args)) = true ->
  (forall pc pl,
      normalize clicks (arg_image_width args) (arg_image_height args) = Ok (pc, pl) ->
      sess_eval sess
        (build_feeds (astype_float32 a) pc pl
           (arg_image_width args) (arg_image_height args))
      = Ok (masks :: others)) ->
  main int_of_str float_of_str sess fs args
  = postprocess masks (arg_image_width args) (arg_image_height args).
Proof.
  intros Hfile Hparse Hne Hlbl Hmax Hfit Hsess.
  pose proof (normalize_closed clicks (arg_image_width args) (arg_image_height args)
                Hmax Hfit Hne Hlbl) as Hnorm.
  specialize (Hsess _ _ Hnorm).
  unfold main, load_embedding, np_load. rewrite Hfile.
  cbn [mbind result_bind].
  rewrite (prepare_points_parsed args clicks Hparse), Hnorm.
  cbn [mbind result_bind].
  unfold resolve_masks. cbn [sess_run]. rewrite Hsess.
  cbn [mbind result_bind].
  destruct (decide _) as [_ | Hlen]; [| cbn in Hlen; lia].
  reflexivity.
Qed.

End WithParsers.

Lemma postprocess_size_below_one (masks : tensor) (rows cols : nat) (w h : Z) :
  nd_shape masks = [1; 1; rows; cols]%nat -> nd_wf masks ->
  w < 1 \/ h < 1 ->
  postprocess masks w h = Raise ValueError.
Proof.
  intros Hshape Hwf Hsize. unfold postprocess.
  rewrite (nd_getitem_first masks rows cols Hshape Hwf).
  cbn [mbind result_bind binarize nd_map fromarray nd_shape nd_data].
  unfold resize_nearest.
  destruct (Z.ltb_spec w 1); [done |]. destruct (Z.ltb_spec h 1); [done | lia].
Qed.

End PipelineFacts.

Module PipelineSpec.
Import Decoder NormalizerFacts RasterFacts ResizeFacts PostprocessSpec PipelineFacts.

(** X10. [main] computes the scale before it reads the clicks, and reads
    the clicks in order: with a malformed click in the list, the run
    fails with [ZeroDivisionError] when [max(w, h) = 0], and otherwise
    with the exception of the first malformed click, whatever follows
    it. *)
Theorem prepare_points_reports_the_first_failure
    (int_of_str : string -> result Z) (float_of_str : string -> result spec_float)
    (args : arguments) (done rest : list string) (bad : string) (e : py_error) :
  arg_click args = done ++ bad :: rest ->
  Forall (fun s => is_ok (parse_click int_of_str float_of_str s) = true) done ->
  parse_click int_of_str float_of_str bad = Raise e ->
  int_fits_float (Z.max (arg_image_width args) (arg_image_height args)) = true ->
  prepare_points int_of_str float_of_str args
  = if Z.max (arg_image_width args) (arg_image_height args) =? 0
    then Raise ZeroDivisionError
    else Raise e.
Proof.
  intros Hclicks Hdone Hbad Hfit. unfold prepare_points.
  destruct (Z.eqb_spec (Z.max (arg_image_width args) (arg_image_height args)) 0)
    as [H0 | H0].
  - by rewrite sam_scale_zero.
  - rewrite sam_scale_nonzero by done. cbn [mbind result_bind].
    by rewrite Hclicks, (mapM_first_failure _ done bad rest e Hdone Hbad).
Qed.

Lemma prepare_points_reports_the_first_failure_witness :
  prepare_points (fun _ => Raise ValueError)
    (fun s => if decide (s = "x") then Raise ValueError else Ok F64.zero)
    (mk_arguments "emb.npy" 640 480 ["1,2"; "x,2"; "3,4:1"])
  = Raise ValueError.
Proof.
  refine (eq_trans
    (prepare_points_reports_the_first_failure (fun _ => Raise ValueError)
       (fun s => if decide (s = "x") then Raise ValueError else Ok F64.zero)
       (mk_arguments "emb.npy" 640 480 ["1,2"; "x,2"; "3,4:1"])
       ["1,2"] ["3,4:1"] "x,2" ValueError _ _ _ _) _).
  - reflexivity.
  - constructor; [reflexivity | constructor].
  - reflexivity.
  - reflexivity.
  - reflexivity.
Defined.


Section WithParsers.

Variable int_of_str : string -> result Z.
Variable float_of_str : string -> result spec_float.

(** X12. When the embedding file holds an array, the clicks parse, the
    size is positive and the engine returns a [1, 1, 256, 256] tensor
    first for the feeds built from the loaded embedding and the
    normalized clicks, [main] succeeds: its native mask is the threshold
    of that first tensor and its full mask the resampling of the native
    one. *)
Theorem main_runs_the_whole_pipeline (sess : session) (fs : gmap string file)
    (args : arguments) (a : npy_array) (clicks : list click)
    (masks : tensor) (others : list tensor) :
  fs !! arg_embedding args = Some (NpyFile a) ->
  mapM (parse_click int_of_str float_of_str) (arg_click args) = Ok clicks ->
  clicks <> [] -> Forall label_fits clicks ->
  0 < arg_image_width args -> 0 < arg_image_height args ->
  int_fits_float (Z.max (arg_image_width args) (arg_image_height args)) = true ->
  (forall pc pl,
      normalize clicks (arg_image_width args) (arg_image_height args) = Ok (pc, pl) ->
      sess_eval sess
        (build_feeds (astype_float32 a) pc pl
           (arg_image_width args) (arg_image_height args))
      = Ok (masks :: others)) ->
  nd_shape masks = [1; 1; 256; 256]%nat -> nd_wf masks ->
  exists native full,
    main int_of_str float_of_str sess fs args = Ok (native, full) /\
    native = mk_image 256 256 (threshold <$> nd_data masks) /\
    resize_nearest native (arg_image_width args, arg_image_height args) = Ok full.
Proof.
  intros Hfile Hparse Hne Hlbl Hw Hh Hfit Hsess Hshape Hwf.
  eexists _, _. split; [| split; [reflexivity |]].
  - rewrite (main_reaches_postprocess int_of_str float_of_str sess fs args a
               clicks masks others) by (done || lia).
    apply (postprocess_closed masks 256 256); done.
  - by rewrite resize_nearest_ok.
Qed.


End WithParsers.

Lemma main_runs_the_whole_pipeline_witness :
  exists native full,
    main DecoderDemo.int_of_str DecoderDemo.float_of_str DecoderDemo.the_session
      DecoderDemo.the_files (DecoderDemo.the_args 640 480)
    = Ok (native, full) /\
    native = mk_image 256 256 (threshold <$> nd_data (np_zeros [1; 1; 256; 256]%nat)) /\
    resize_nearest native (640, 480) = Ok full.
Proof.
  apply (main_runs_the_whole_pipeline DecoderDemo.int_of_str DecoderDemo.float_of_str
           DecoderDemo.the_session DecoderDemo.the_files (DecoderDemo.the_args 640 480)
           (NpyFloat32 (np_zeros [1; 256; 64; 64]%nat))
           [(F64.of_Z 320, F64.of_Z 240, 1)]
           (np_zeros [1; 1; 256; 256]%nat)
           [np_zeros [1; 1]%nat; np_zeros [1; 1; 256; 256]%nat]).
  - apply lookup_singleton_eq.
  - reflexivity.
  - discriminate.
  - constructor; [reflexivity | constructor].
  - reflexivity.
  - reflexivity.
  - reflexivity.
  - intros pc pl _. reflexivity.
  - reflexivity.
  - apply length_replicate.
Defined.


(** X14. The full mask is as binary as the native one: resampling by
    nearest neighbour brings in no value besides 0 and 255. *)
Theorem full_mask_is_binary (masks : tensor) (w h : Z) (native full : image) :
  nd_shape masks = [1; 1; 256; 256]%nat -> nd_wf masks ->
  postprocess masks w h = Ok (native, full) ->
  Forall (fun v => v = 0 \/ v = 255) (im_pixels full).
Proof.
  intros Hshape Hwf Hpost.
  destruct (Z.ltb_spec w 1) as [Hw | Hw];
    [| destruct (Z.ltb_spec h 1) as [Hh | Hh]].
  3: { rewrite (postprocess_closed masks 256 256) in Hpost by (done || lia).
       injection Hpost as <- <-. cbn [im_pixels].
       apply Forall_raster. intros x y. unfold pixel; cbn [im_width im_pixels].
       rewrite nth_lookup, list_lookup_fmap.
       destruct (nd_data masks !! _); cbn; [apply threshold_binary | by left]. }
  all: rewrite (postprocess_size_below_one masks 256 256) in Hpost by (done || lia);
    discriminate.
Qed.

Lemma full_mask_is_binary_witness :
  exists native full,
    postprocess (np_zeros [1; 1; 256; 256]%nat) 640 480 = Ok (native, full) /\
    Forall (fun v => v = 0 \/ v = 255) (im_pixels full).
Proof.
  eexists _, _. split.
  - apply (postprocess_closed (np_zeros [1; 1; 256; 256]%nat) 256 256 640 480);
      [reflexivity | apply length_replicate | lia | lia].
  - apply (full_mask_is_binary (np_zeros [1; 1; 256; 256]%nat) 640 480
             (mk_image 256 256 (threshold <$> nd_data (np_zeros [1; 1; 256; 256]%nat)))).
    + reflexivity.
    + apply length_replicate.
    + apply (postprocess_closed (np_zeros [1; 1; 256; 256]%nat) 256 256 640 480);
        [reflexivity | apply length_replicate | lia | lia].
Defined.

(** X15. For a 256x256 image the two masks are the same raster. *)
Theorem same_size_full_mask_is_the_native_mask (masks : tensor) :
  nd_shape masks = [1; 1; 256; 256]%nat -> nd_wf masks ->
  postprocess masks 256 256
  = Ok (mk_image 256 256 (threshold <$> nd_data masks),
        mk_image 256 256 (threshold <$> nd_data masks)).
Proof.
  intros Hshape Hwf. unfold postprocess.
  rewrite (nd_getitem_first masks 256 256 Hshape Hwf).
  cbn [mbind result_bind binarize nd_map fromarray nd_shape nd_data].
  rewrite (resize_nearest_same (mk_image 256 256 (threshold <$> nd_data masks))).
  - reflexivity.
  - unfold image_wf; cbn [im_pixels im_width im_height].
    rewrite length_fmap. unfold nd_wf in Hwf. rewrite Hwf, Hshape.
    cbn [shape_size foldr]. lia.
  - cbn; lia.
  - cbn; lia.
Qed.

Lemma same_size_full_mask_is_the_native_mask_witness :
  postprocess (np_zeros [1; 1; 256; 256]%nat) 256 256
  = Ok (mk_image 256 256 (threshold <$> nd_data (np_zeros [1; 1; 256; 256]%nat)),
        mk_image 256 256 (threshold <$> nd_data (np_zeros [1; 1; 256; 256]%nat))).
Proof.
  apply (same_size_full_mask_is_the_native_mask (np_zeros [1; 1; 256; 256]%nat)).
  - reflexivity.
  - apply length_replicate.
Defined.

End PipelineSpec.
